(** * SERP monitor: probe classification, per-cycle aggregation, rolling
      windows and alert rules

    A shallow embedding of [serp_monitor.py] (classes [Config] and
    [SERPMonitor]) and of the older script [SERP_Monitor_log.py].

    Conventions of the embedding.
    - A Python [float] is a rational [Q]; comparisons are the exact ones
      ([Qle_bool]), arithmetic is exact.  [round(x, 2)] is round-half-even
      at two decimals on the exact value.
    - A Python [str] is a [string] holding its UTF-8 bytes, so that
      [len(s.encode("utf-8"))] is [String.length s]; [str.lower] acts on the
      ASCII letters (no other code point lowers to one of h, t, m, l).
    - Insertion-ordered dicts that are iterated ([grouped], [analysis],
      [params]) are association lists; dicts that are only indexed
      ([search_engines], [status_window]) are [gmap]s.
    - A call that can raise returns an [Outcome]; log writes are collected
      in a list.

    Beyond the probe, the aggregation and the alert rules, the file embeds
    the request body ([urlencode]), [Config._validate_config], the handling
    of the command line in [main], [Logger.get_engine_logger] and the
    analysis loop of the older script. *)

From Stdlib Require Import ZArith QArith Lqa Lia Bool.
From Stdlib Require Import Ascii String List Permutation Sorted.
From stdpp Require Import base option gmap strings.
Import ListNotations.

Local Open Scope Z_scope.
Local Open Scope string_scope.
Local Open Scope list_scope.

(** ** Python values *)

Module Py.

(** An exception instance: [type(e).__name__] and [str(e)]. *)
Record Exn := { exn_type : string; exn_text : string }.

Inductive Outcome (A : Type) : Type :=
| Return (a : A)
| Raise (e : Exn).
Arguments Return {A} a.
Arguments Raise {A} e.

(** [x < y] and [x >= y] on floats. *)
Definition ltb (x y : Q) : bool := negb (Qle_bool y x).
Definition geb (x y : Q) : bool := Qle_bool y x.
Definition gtb (x y : Q) : bool := ltb y x.

(** [s.lower()] on the ASCII range. *)
Definition lower_ascii (c : ascii) : ascii :=
  let n := nat_of_ascii c in
  if (65 <=? n)%nat && (n <=? 90)%nat then ascii_of_nat (n + 32) else c.

Fixpoint lower (s : string) : string :=
  match s with
  | EmptyString => EmptyString
  | String c s' => String (lower_ascii c) (lower s')
  end.

(** [needle in hay] for strings. *)
Fixpoint contains (needle hay : string) : bool :=
  String.prefix needle hay ||
  match hay with
  | EmptyString => false
  | String _ hay' => contains needle hay'
  end.

Definition double_quote : ascii := "034"%char.
Definition backslash : ascii := "092"%char.

Definition hex_lower (n : nat) : ascii :=
  if (n <? 10)%nat then ascii_of_nat (48 + n) else ascii_of_nat (87 + n).

Definition repr_quote (s : string) : ascii :=
  if contains "'" s && negb (contains (String double_quote EmptyString) s)
  then double_quote else "'"%char.

Definition repr_char (quote_mark c : ascii) : string :=
  let n := nat_of_ascii c in
  if Ascii.eqb c quote_mark || Ascii.eqb c backslash
  then String backslash (String c EmptyString)
  else if (n =? 9)%nat then String backslash "t"
  else if (n =? 10)%nat then String backslash "n"
  else if (n =? 13)%nat then String backslash "r"
  else if (n <? 32)%nat || (n =? 127)%nat
  then String backslash
         (String "x" (String (hex_lower (n / 16))
                        (String (hex_lower (n mod 16)) EmptyString)))
  else String c EmptyString.

Fixpoint repr_body (quote_mark : ascii) (s : string) : string :=
  match s with
  | EmptyString => EmptyString
  | String c s' => repr_char quote_mark c +:+ repr_body quote_mark s'
  end.

(** [repr(s)] of a [str].  The text is wrapped in apostrophes, or in double
    quotes when it holds an apostrophe and no double quote; the wrapping
    quote and the backslash are escaped, tab, newline and return are written
    [\t], [\n], [\r], the other control characters [\xhh].  The bytes of a
    code point beyond ASCII are copied, as [repr] does for a printable
    one. *)
Definition repr (s : string) : string :=
  let quote_mark := repr_quote s in
  String quote_mark (repr_body quote_mark s
                     +:+ String quote_mark EmptyString).

(** [KeyError(key)]: [str] of it is [repr(key)]. *)
Definition KeyError (key : string) : Exn :=
  {| exn_type := "KeyError"; exn_text := repr key |}.

(** [d[k] = v] on an insertion-ordered dict: an existing key keeps its
    position, a new key goes last. *)
Fixpoint dict_set {V} (k : string) (v : V) (d : list (string * V))
  : list (string * V) :=
  match d with
  | [] => [(k, v)]
  | (k', v') :: d' =>
      if String.eqb k k' then (k', v) :: d' else (k', v') :: dict_set k v d'
  end.

Fixpoint dict_get {V} (k : string) (d : list (string * V)) : option V :=
  match d with
  | [] => None
  | (k', v') :: d' => if String.eqb k k' then Some v' else dict_get k d'
  end.

Definition keys {V} (d : list (string * V)) : list string := map fst d.

(** [sum(1 for r in l if p(r))]. *)
Fixpoint count_if {A} (p : A -> bool) (l : list A) : nat :=
  match l with
  | [] => O
  | x :: l' => ((if p x then 1 else 0) + count_if p l')%nat
  end.

(** [round(x, 2)]: the nearest multiple of 1/100, ties to the even one. *)
Definition round_half_even (n : Z) (d : positive) : Z :=
  let q := n / Zpos d in
  let r := n mod Zpos d in
  match (2 * r ?= Zpos d) with
  | Lt => q
  | Gt => q + 1
  | Eq => if Z.even q then q else q + 1
  end.

Definition round2 (x : Q) : Q :=
  let h := Qmult x (100 # 1) in
  Qred (round_half_even (Qnum h) (Qden h) # 100).

(** [urllib.parse.quote(s)] with its default [safe="/"]: letters, digits
    and [_.-~/] stay, every other byte becomes [%XX]. *)
Definition hex_digit (n : nat) : ascii :=
  if (n <? 10)%nat then ascii_of_nat (48 + n) else ascii_of_nat (55 + n).

Definition quote_safe (c : ascii) : bool :=
  let n := nat_of_ascii c in
  ((65 <=? n) && (n <=? 90) || (97 <=? n) && (n <=? 122)
   || (48 <=? n) && (n <=? 57)
   || (n =? 95) || (n =? 46) || (n =? 45) || (n =? 126) || (n =? 47))%nat.

Fixpoint quote (s : string) : string :=
  match s with
  | EmptyString => EmptyString
  | String c s' =>
      if quote_safe c then String c (quote s')
      else
        let n := nat_of_ascii c in
        String "%" (String (hex_digit (n / 16))
                      (String (hex_digit (n mod 16)) (quote s')))
  end.

End Py.

Import Py.

(** ** Configuration ([class Config]) *)

(** One entry of [search_engines]; [None] is a key the JSON object lacks. *)
Record EngineConfig := {
  ec_domain : option string;
  ec_param : option string;
  ec_engine : option string
}.

Record Config := {
  search_engines : gmap string EngineConfig;
  concurrency : Z;
  requests_per_engine : Z;
  monitor_duration_minutes : Z;
  threshold_success_rate : Q;
  threshold_timeout_rate : Q;
  timeout_limit : Q;
  min_content_size_kb : Q
}.

(** ** Probe results *)

Record ProbeResult := {
  pr_engine : string;
  pr_term : string;
  pr_status : Z;
  pr_elapsed : Q;
  pr_is_timeout : bool;
  pr_success : bool;
  pr_exception : option string;
  pr_content_size : Q;
  pr_timestamp : Q
}.

(** What the proxy answered: [r.status], [r.headers.get("Content-Type")]
    ([None] when the header is absent) and [await r.text()]. *)
Record Response := {
  resp_status : Z;
  resp_content_type : option string;
  resp_text : string
}.

(** What the [try] block of [fetch] does once the payload is built, from
    [session.post] to the end of [await r.text()]: it completes with a
    response, raises an instance of [Exception] (transport error, protocol
    error, timeout), or is left by a [BaseException] that is no [Exception]
    ([asyncio.CancelledError] at one of the awaits), which
    [except Exception] does not catch. *)
Inductive NetOutcome :=
| Responded (r : Response)
| Failed (e : Exn)
| Aborted (e : Exn).

(** The three readings of [time.time()] along one call of [fetch]: at entry,
    when the body is read or the failure is caught, and for the timestamp. *)
Record Clock := { t_start : Q; t_done : Q; t_stamp : Q }.

(** A line written to a logger. *)
Inductive LogRecord :=
| LogRequestFailed (engine term request_url err_type error_text : string)
                   (elapsed : Q).

Record Payload := {
  pl_url : string;
  pl_params : list (string * string)
}.

(** ** [SERPMonitor.build_payload] *)

Definition build_payload (cfg : Config) (engine term : string)
  : Outcome Payload :=
  match search_engines cfg !! engine with
  | None => Raise (KeyError engine)
  | Some engine_config =>
      match ec_domain engine_config with
      | None => Raise (KeyError "domain")
      | Some domain =>
          match ec_param engine_config with
          | None => Raise (KeyError "param")
          | Some param =>
              let api_engine := default engine (ec_engine engine_config) in
              let url := "https://" +:+ domain +:+ "/search?" +:+ param +:+ "="
                           +:+ quote term +:+ "&json=1" in
              let params :=
                dict_set "json" "1"
                  (dict_set param term
                     (dict_set "engine" api_engine [])) in
              Return {| pl_url := url; pl_params := params |}
          end
      end
  end.

(** ** [SERPMonitor.fetch] *)

Definition content_size_kb (content : string) : Q :=
  Z.of_nat (String.length content) # 1024.

Definition response_is_success (cfg : Config) (r : Response) : bool :=
  (resp_status r =? 200)%Z
  && negb (contains "html" (lower (default "" (resp_content_type r))))
  && geb (content_size_kb (resp_text r)) (min_content_size_kb cfg).

(** The [except Exception as e] block. *)
Definition fetch_handler (cfg : Config) (clk : Clock) (engine term : string)
    (e : Exn) : list LogRecord * Outcome ProbeResult :=
  let elapsed := Qminus (t_done clk) (t_start clk) in
  let err_type := exn_type e in
  let error_text := exn_text e in
  match build_payload cfg engine term with
  | Raise e' => ([], Raise e')
  | Return p =>
      ([LogRequestFailed engine term (pl_url p) err_type error_text elapsed],
       Return {| pr_engine := engine;
                 pr_term := term;
                 pr_status := 0;
                 pr_elapsed := elapsed;
                 pr_is_timeout := true;
                 pr_success := false;
                 pr_exception := Some (err_type +:+ ": " +:+ error_text);
                 pr_content_size := 0%Q;
                 pr_timestamp := t_stamp clk |})
  end.

Definition fetch (cfg : Config) (net : NetOutcome) (clk : Clock)
    (engine term : string) : list LogRecord * Outcome ProbeResult :=
  match build_payload cfg engine term with
  | Raise e => fetch_handler cfg clk engine term e
  | Return payload =>
      match net with
      | Aborted e => ([], Raise e)
      | Failed e => fetch_handler cfg clk engine term e
      | Responded r =>
          let elapsed := Qminus (t_done clk) (t_start clk) in
          let content_size := content_size_kb (resp_text r) in
          let is_success := response_is_success cfg r in
          ([], Return {| pr_engine := engine;
                         pr_term := term;
                         pr_status := resp_status r;
                         pr_elapsed := elapsed;
                         pr_is_timeout := gtb elapsed (timeout_limit cfg);
                         pr_success := is_success;
                         pr_exception := None;
                         pr_content_size := content_size;
                         pr_timestamp := t_stamp clk |})
      end
  end.

(** ** [SERPMonitor.analyze_results] *)

Record CycleStats := {
  cs_total : nat;
  cs_success : nat;
  cs_timeout : nat;
  cs_exceptions : nat;
  cs_errors : nat;
  cs_success_rate : Q;
  cs_timeout_rate : Q;
  cs_exception_rate : Q;
  cs_error_rate : Q;
  cs_results : list ProbeResult
}.

(** [status in (500, 502, 504)]. *)
Definition is_5xx (status : Z) : bool :=
  ((status =? 500) || (status =? 502) || (status =? 504))%Z.

(** [grouped[r["engine"]].append(r)] on a [defaultdict(list)]. *)
Definition grouped_append (r : ProbeResult)
    (grouped : list (string * list ProbeResult))
  : list (string * list ProbeResult) :=
  let engine := pr_engine r in
  dict_set engine (default [] (dict_get engine grouped) ++ [r]) grouped.

Definition group_by_engine (results : list ProbeResult)
  : list (string * list ProbeResult) :=
  fold_left (fun grouped r => grouped_append r grouped) results [].

(** [round(count / total * 100, 2)], computed on the exact quotient.  The
    code rounds the binary64 product, which can fall on the other side of a
    half (23 of 160 is 14.375 here and a little less there); the statements
    below use [rate] as a function of the two counts, or at 0 of t and t of
    t, where both computations give 0 and 100. *)
Definition rate (count total : nat) : Q :=
  round2 (Qmult (Qdiv (inject_Z (Z.of_nat count)) (inject_Z (Z.of_nat total)))
                (100 # 1)).

Definition engine_stats (group : list ProbeResult) : CycleStats :=
  let total := length group in
  let success := count_if pr_success group in
  let timeout := count_if pr_is_timeout group in
  let exceptions := count_if (fun r => is_5xx (pr_status r)) group in
  let errors := count_if (fun r => (pr_status r =? 0)%Z) group in
  {| cs_total := total;
     cs_success := success;
     cs_timeout := timeout;
     cs_exceptions := exceptions;
     cs_errors := errors;
     cs_success_rate := rate success total;
     cs_timeout_rate := rate timeout total;
     cs_exception_rate := rate exceptions total;
     cs_error_rate := rate errors total;
     cs_results := group |}.

(** The body of [for engine, group in grouped.items()]. *)
Definition analysis_step (analysis : list (string * CycleStats))
    (item : string * list ProbeResult) : list (string * CycleStats) :=
  let (engine, group) := item in
  if (length group =? 0)%nat then analysis
  else dict_set engine (engine_stats group) analysis.

Definition analyze_results (results : list ProbeResult)
  : list (string * CycleStats) :=
  let grouped := group_by_engine results in
  fold_left analysis_step grouped [].

(** The numbers of a [CycleStats], without the retained result list. *)
Definition stats_numbers (s : CycleStats)
  : (nat * nat * nat * nat * nat) * (Q * Q * Q * Q) :=
  ((cs_total s, cs_success s, cs_timeout s, cs_exceptions s, cs_errors s),
   (cs_success_rate s, cs_timeout_rate s, cs_exception_rate s,
    cs_error_rate s)).

(** ** The rolling windows ([collections.deque(maxlen=3)]) *)

Record Deque := { dq_maxlen : nat; dq_items : list Q }.

Definition deque (maxlen : nat) : Deque :=
  {| dq_maxlen := maxlen; dq_items := [] |}.

(** [d.append(x)]: the item goes to the right end; a deque grown past its
    [maxlen] drops its leftmost item. *)
Definition deque_append (x : Q) (d : Deque) : Deque :=
  let items := dq_items d ++ [x] in
  {| dq_maxlen := dq_maxlen d;
     dq_items := if (dq_maxlen d <? length items)%nat then tl items
                 else items |}.

Record EngineWindow := {
  w_success_rate : Deque;
  w_timeout_rate : Deque;
  w_exception_rate : Deque;
  w_error_rate : Deque
}.

Definition new_window : EngineWindow :=
  {| w_success_rate := deque 3;
     w_timeout_rate := deque 3;
     w_exception_rate := deque 3;
     w_error_rate := deque 3 |}.

(** The dict comprehension that opens [monitor]. *)
Definition init_status_window (cfg : Config) : gmap string EngineWindow :=
  (fun _ => new_window) <$> search_engines cfg.

(** The four [append]s of one cycle. *)
Definition push_rates (s : EngineWindow) (stats : CycleStats) : EngineWindow :=
  {| w_success_rate := deque_append (cs_success_rate stats) (w_success_rate s);
     w_timeout_rate := deque_append (cs_timeout_rate stats) (w_timeout_rate s);
     w_exception_rate :=
       deque_append (cs_exception_rate stats) (w_exception_rate s);
     w_error_rate := deque_append (cs_error_rate stats) (w_error_rate s) |}.

(** ** [SERPMonitor.check_alerts] *)

(** A call of [alert_manager.send_alert]. *)
Inductive AlertCall :=
| SuccessRateAlert (engine : string) (threshold : Q) (data_list : list Q)
| TimeoutRateAlert (engine : string) (threshold : Q) (data_list : list Q)
| BurstAlert (engine : string).

(** [sorted(l, key=lambda x: x.get("timestamp", 0))]: a stable sort, written
    as the insertion sort that keeps equal keys in their input order. *)
Fixpoint insert_by_timestamp (r : ProbeResult) (l : list ProbeResult)
  : list ProbeResult :=
  match l with
  | [] => [r]
  | x :: l' =>
      if Qle_bool (pr_timestamp r) (pr_timestamp x) then r :: x :: l'
      else x :: insert_by_timestamp r l'
  end.

Definition sorted_by_timestamp (l : list ProbeResult) : list ProbeResult :=
  fold_right insert_by_timestamp [] l.

(** [codes[i]]; an index out of range raises [IndexError]. *)
Definition code_at (codes : list Z) (i : nat) : Outcome Z :=
  match nth_error codes i with
  | Some c => Return c
  | None =>
      Raise {| exn_type := "IndexError";
               exn_text := "list index out of range" |}
  end.

(** [any(... for i in range(len(codes) - 2))], left to right, stopping at
    the first true element. *)
Fixpoint any_triple (codes : list Z) (indices : list nat) : Outcome bool :=
  match indices with
  | [] => Return false
  | i :: rest =>
      match code_at codes i with
      | Raise e => Raise e
      | Return c0 =>
          if negb (is_5xx c0) then any_triple codes rest
          else
            match code_at codes (i + 1) with
            | Raise e => Raise e
            | Return c1 =>
                if negb (is_5xx c1) then any_triple codes rest
                else
                  match code_at codes (i + 2) with
                  | Raise e => Raise e
                  | Return c2 =>
                      if is_5xx c2 then Return true
                      else any_triple codes rest
                  end
            end
      end
  end.

(** [range(n)] for a Python integer [n]. *)
Definition range (n : Z) : list nat := seq 0 (Z.to_nat n).

Definition found_3_in_row (results : list ProbeResult) : Outcome bool :=
  let results := sorted_by_timestamp results in
  let codes := map pr_status results in
  any_triple codes (range (Z.of_nat (length codes) - 2)).

(** [len(d) == 3 and all(p(x) for x in d)]. *)
Definition three_and_all (p : Q -> bool) (d : Deque) : bool :=
  (length (dq_items d) =? 3)%nat && forallb p (dq_items d).

Definition check_alerts (cfg : Config) (engine : string) (stats : CycleStats)
    (status_window : gmap string EngineWindow) : Outcome (list AlertCall) :=
  match status_window !! engine with
  | None => Raise (KeyError engine)
  | Some s =>
      let success_alert :=
        if three_and_all (fun x => ltb x (threshold_success_rate cfg))
             (w_success_rate s)
        then [SuccessRateAlert engine (threshold_success_rate cfg)
                (dq_items (w_success_rate s))]
        else [] in
      let timeout_alert :=
        if three_and_all (fun x => gtb x (threshold_timeout_rate cfg))
             (w_timeout_rate s)
        then [TimeoutRateAlert engine (threshold_timeout_rate cfg)
                (dq_items (w_timeout_rate s))]
        else [] in
      match found_3_in_row (cs_results stats) with
      | Raise e => Raise e
      | Return found =>
          Return (success_alert ++ timeout_alert
                  ++ (if found then [BurstAlert engine] else []))
      end
  end.

(** Which alerts a list of calls holds. *)
Definition is_success_alert (a : AlertCall) : bool :=
  match a with SuccessRateAlert _ _ _ => true | _ => false end.
Definition is_timeout_alert (a : AlertCall) : bool :=
  match a with TimeoutRateAlert _ _ _ => true | _ => false end.
Definition is_burst_alert (a : AlertCall) : bool :=
  match a with BurstAlert _ => true | _ => false end.

(** ** The cycle loop of [SERPMonitor.monitor] *)

#[global] Instance outcome_ret : MRet Outcome := @Return.
#[global] Instance outcome_bind : MBind Outcome :=
  fun A B (f : A -> Outcome B) (m : Outcome A) =>
    match m with
    | Return a => f a
    | Raise e => Raise e
    end.

(** [for engine, stats in analysis.items(): ...]: the window of the engine
    is updated in place, then the alert rules are evaluated on it. *)
Fixpoint update_and_check (cfg : Config) (analysis : list (string * CycleStats))
    (status_window : gmap string EngineWindow)
  : Outcome (gmap string EngineWindow * list AlertCall) :=
  match analysis with
  | [] => mret (status_window, [])
  | (engine, stats) :: rest =>
      match status_window !! engine with
      | None => Raise (KeyError engine)
      | Some s =>
          let status_window := <[engine := push_rates s stats]> status_window in
          alerts ← check_alerts cfg engine stats status_window;
          '(status_window, more) ← update_and_check cfg rest status_window;
          mret (status_window, alerts ++ more)
      end
  end.

(** One pass of the [for minute in range(...)] body, given the results that
    [asyncio.gather] returned for that minute. *)
Definition cycle (cfg : Config) (results : list ProbeResult)
    (status_window : gmap string EngineWindow)
  : Outcome (gmap string EngineWindow * list AlertCall) :=
  update_and_check cfg (analyze_results results) status_window.

Fixpoint run_cycles (cfg : Config) (batches : list (list ProbeResult))
    (status_window : gmap string EngineWindow)
  : Outcome (gmap string EngineWindow * list AlertCall) :=
  match batches with
  | [] => mret (status_window, [])
  | results :: later =>
      '(status_window, alerts) ← cycle cfg results status_window;
      '(status_window, more) ← run_cycles cfg later status_window;
      mret (status_window, alerts ++ more)
  end.

(** The loop of [monitor] from the gathered results on: [gathered minute]
    stands for the list that [asyncio.gather] returned in minute [minute].
    The probe phase of a minute (the semaphore, the tasks, [random.choice],
    [fetch] and [gather] itself) is not part of this function, so a run in
    which that phase raises or never returns has no [gathered] and is not
    described by it. *)
Definition monitor_on_batches (cfg : Config)
    (gathered : nat -> list ProbeResult)
  : Outcome (list AlertCall) :=
  if (monitor_duration_minutes cfg <=? 0)%Z then mret []
  else
    '(_, alerts) ← run_cycles cfg
                     (map gathered (range (monitor_duration_minutes cfg)))
                     (init_status_window cfg);
    mret alerts.

(** ** The probe tasks of one cycle and their semaphore

    Every task of a cycle is [async with sem: result = await self.fetch(...)]
    on the one [asyncio.Semaphore(self.config.concurrency)] created for the
    cycle.  A task is waiting for the semaphore, holds it while its network
    call is in flight, or has left the [async with] block.  The event loop
    may interleave the tasks in any order. *)

Inductive TaskState :=
| Waiting
| InFlight
| Done (result : Outcome ProbeResult).

Record CycleState := {
  sem_value : Z;
  tasks : list TaskState
}.

(** [asyncio.Semaphore(value)] refuses a negative initial value. *)
Definition Semaphore (value : Z) : Outcome Z :=
  if (value <? 0)%Z
  then Raise {| exn_type := "ValueError";
                exn_text := "Semaphore initial value must be >= 0" |}
  else Return value.

(** The state after [tasks.append(task())] for every probe of the batch. *)
Definition start_cycle (cfg : Config) (batch : list (string * string))
  : Outcome CycleState :=
  value ← Semaphore (concurrency cfg);
  mret {| sem_value := value; tasks := map (fun _ => Waiting) batch |}.

Inductive task_step : CycleState -> CycleState -> Prop :=
| step_acquire (st : CycleState) (i : nat) :
    tasks st !! i = Some Waiting ->
    (0 < sem_value st)%Z ->
    task_step st {| sem_value := sem_value st - 1;
                    tasks := <[i := InFlight]> (tasks st) |}
| step_release (st : CycleState) (i : nat) (result : Outcome ProbeResult) :
    tasks st !! i = Some InFlight ->
    task_step st {| sem_value := sem_value st + 1;
                    tasks := <[i := Done result]> (tasks st) |}.

Definition is_in_flight (t : TaskState) : bool :=
  match t with InFlight => true | _ => false end.

Definition in_flight (st : CycleState) : nat :=
  count_if is_in_flight (tasks st).

(** ** The older script, [SERP_Monitor_log.py] *)

Module Legacy.

Definition SEARCH_ENGINES : gmap string (string * string) :=
  {[ "google" := ("www.google.com", "q");
     "bing" := ("www.bing.com", "q");
     "yandex" := ("yandex.com", "text");
     "duckduckgo" := ("duckduckgo.com", "q") ]}.

Definition TIMEOUT_LIMIT : Q := 10 # 1.
Definition MIN_CONTENT_SIZE_KB : Q := 2 # 1.

Definition build_payload (engine term : string) : Outcome string :=
  match SEARCH_ENGINES !! engine with
  | None => Raise (KeyError engine)
  | Some (domain, param) =>
      Return ("https://" +:+ domain +:+ "/search?" +:+ param +:+ "="
                +:+ quote term +:+ "&json=1")
  end.

(** The header is searched as it came, without lowering. *)
Definition response_is_success (r : Response) : bool :=
  (resp_status r =? 200)%Z
  && negb (contains "html" (default "" (resp_content_type r)))
  && geb (content_size_kb (resp_text r)) MIN_CONTENT_SIZE_KB.

Definition fetch_handler (clk : Clock) (engine term : string) (e : Exn)
  : list LogRecord * Outcome ProbeResult :=
  let elapsed := Qminus (t_done clk) (t_start clk) in
  match build_payload engine term with
  | Raise e' => ([], Raise e')
  | Return request_url =>
      ([LogRequestFailed engine term request_url (exn_type e) (exn_text e)
          elapsed],
       Return {| pr_engine := engine;
                 pr_term := term;
                 pr_status := 0;
                 pr_elapsed := elapsed;
                 pr_is_timeout := true;
                 pr_success := false;
                 pr_exception := Some (exn_type e +:+ ": " +:+ exn_text e);
                 pr_content_size := 0%Q;
                 pr_timestamp := t_stamp clk |})
  end.

Definition fetch (net : NetOutcome) (clk : Clock) (engine term : string)
  : list LogRecord * Outcome ProbeResult :=
  match build_payload engine term with
  | Raise e => fetch_handler clk engine term e
  | Return _ =>
      match net with
      | Aborted e => ([], Raise e)
      | Failed e => fetch_handler clk engine term e
      | Responded r =>
          let elapsed := Qminus (t_done clk) (t_start clk) in
          ([], Return {| pr_engine := engine;
                         pr_term := term;
                         pr_status := resp_status r;
                         pr_elapsed := elapsed;
                         pr_is_timeout := gtb elapsed TIMEOUT_LIMIT;
                         pr_success := response_is_success r;
                         pr_exception := None;
                         pr_content_size := content_size_kb (resp_text r);
                         pr_timestamp := t_stamp clk |})
      end
  end.

End Legacy.

(** ** The request body of [fetch]: [urlencode(payload["params"])] *)

(** [quote_plus] keeps letters, digits and [_.-~] ([urlencode] passes
    [safe=""], so the slash is escaped too). *)
Definition quote_plus_safe (c : ascii) : bool :=
  let n := nat_of_ascii c in
  ((65 <=? n) && (n <=? 90) || (97 <=? n) && (n <=? 122)
   || (48 <=? n) && (n <=? 57)
   || (n =? 95) || (n =? 46) || (n =? 45) || (n =? 126))%nat.

(** [urllib.parse.quote_plus(s, safe="")]: a space becomes [+], a kept
    character stays, every other byte becomes [%XX]. *)
Fixpoint quote_plus (s : string) : string :=
  match s with
  | EmptyString => EmptyString
  | String c s' =>
      if Ascii.eqb c " " then String "+" (quote_plus s')
      else if quote_plus_safe c then String c (quote_plus s')
      else
        let n := nat_of_ascii c in
        String "%" (String (hex_digit (n / 16))
                      (String (hex_digit (n mod 16)) (quote_plus s')))
  end.

(** [sep.join(parts)]. *)
Fixpoint join (sep : string) (parts : list string) : string :=
  match parts with
  | [] => EmptyString
  | [x] => x
  | x :: rest => x +:+ sep +:+ join sep rest
  end.

(** [urllib.parse.urlencode(query)] on a dict of strings. *)
Definition urlencode (query : list (string * string)) : string :=
  join "&" (map (fun kv => quote_plus (fst kv) +:+ "=" +:+ quote_plus (snd kv))
              query).

(** The [data=] argument of [session.post] in [fetch]. *)
Definition request_body (cfg : Config) (engine term : string)
  : Outcome string :=
  payload ← build_payload cfg engine term;
  mret (urlencode (pl_params payload)).

(** [sum(1 for ch in s if ch == c)]. *)
Fixpoint count_char (c : ascii) (s : string) : nat :=
  match s with
  | EmptyString => O
  | String c' s' => ((if Ascii.eqb c' c then 1 else 0) + count_char c s')%nat
  end.

(** ** [Config._validate_config] *)

Definition required_keys : list string :=
  ["search_engines"; "search_terms"; "monitoring"; "thresholds"; "auth"].

Definition ValueError (message : string) : Exn :=
  {| exn_type := "ValueError"; exn_text := message |}.

(** The text of the error for a missing key. *)
Definition missing_field (key : string) : string :=
  "配置文件缺少必需字段: " +:+ key.

(** [for key in required_keys: if key not in self.config: raise ...], on the
    parsed JSON object [config]. *)
Fixpoint check_required {V} (required : list string)
    (config : list (string * V)) : Outcome unit :=
  match required with
  | [] => Return tt
  | key :: rest =>
      match dict_get key config with
      | None => Raise (ValueError (missing_field key))
      | Some _ => check_required rest config
      end
  end.

Definition validate_config {V} (config : list (string * V)) : Outcome unit :=
  check_required required_keys config.

(** ** [main]: the command line applied to the configuration *)

(** [args.engines] and [args.duration]; [None] when the option is absent. *)
Record Args := {
  args_engines : option (list string);
  args_duration : option Z
}.

(** What [main] does after loading the configuration: leave through
    [sys.exit(code)], or start [monitor] on a configuration. *)
Inductive Startup :=
| Exit (code : Z)
| Run (cfg : Config).

Definition with_search_engines (cfg : Config)
    (engines : gmap string EngineConfig) : Config :=
  {| search_engines := engines;
     concurrency := concurrency cfg;
     requests_per_engine := requests_per_engine cfg;
     monitor_duration_minutes := monitor_duration_minutes cfg;
     threshold_success_rate := threshold_success_rate cfg;
     threshold_timeout_rate := threshold_timeout_rate cfg;
     timeout_limit := timeout_limit cfg;
     min_content_size_kb := min_content_size_kb cfg |}.

Definition with_duration (cfg : Config) (minutes : Z) : Config :=
  {| search_engines := search_engines cfg;
     concurrency := concurrency cfg;
     requests_per_engine := requests_per_engine cfg;
     monitor_duration_minutes := minutes;
     threshold_success_rate := threshold_success_rate cfg;
     threshold_timeout_rate := threshold_timeout_rate cfg;
     timeout_limit := timeout_limit cfg;
     min_content_size_kb := min_content_size_kb cfg |}.

(** [requested_engines - available_engines], in the order asked. *)
Definition invalid_engines (cfg : Config) (requested : list string)
  : list string :=
  List.filter (fun e => bool_decide (search_engines cfg !! e = None)) requested.

(** [{k: v for k, v in config.search_engines.items()
      if k in requested_engines}]. *)
Definition keep_requested (cfg : Config) (requested : list string)
  : gmap string EngineConfig :=
  filter (fun kv => fst kv ∈ requested) (search_engines cfg).

(** [if args.duration: ...]: absent and 0 are both falsy. *)
Definition apply_duration (args : Args) (cfg : Config) : Config :=
  match args_duration args with
  | Some minutes => if (minutes =? 0)%Z then cfg else with_duration cfg minutes
  | None => cfg
  end.

(** [if args.engines: ...]: absent and the empty list are both falsy. *)
Definition configure (args : Args) (cfg : Config) : Startup :=
  match args_engines args with
  | Some (e :: es) =>
      let requested := e :: es in
      match invalid_engines cfg requested with
      | _ :: _ => Exit 1
      | [] =>
          Run (apply_duration args
                 (with_search_engines cfg (keep_requested cfg requested)))
      end
  | _ => Run (apply_duration args cfg)
  end.

(** ** [Logger.get_engine_logger] *)

(** A handler attached to a logger: a [FileHandler] on the daily file of an
    engine, or a handler of another class. *)
Inductive Handler :=
| FileHandler (log_dir engine date_str : string)
| OtherHandler (name : string).

Definition is_file_handler (h : Handler) : bool :=
  match h with FileHandler _ _ _ => true | OtherHandler _ => false end.

(** The handlers of the loggers of [logging], by logger name, and the
    [logger_cache] of the [Logger] object. *)
Record LoggerState := {
  lg_handlers : gmap string (list Handler);
  lg_cache : gmap string (string * Handler)
}.

Definition logger_name (engine : string) : string := engine +:+ "_daily".

Definition get_engine_logger (log_dir engine date_str : string)
    (st : LoggerState) : LoggerState :=
  let name := logger_name engine in
  let stale :=
    match lg_cache st !! engine with
    | None => true
    | Some (date, _) => negb (String.eqb date date_str)
    end in
  if stale then
    let kept :=
      List.filter (fun h => negb (is_file_handler h))
        (default [] (lg_handlers st !! name)) in
    let fh := FileHandler log_dir engine date_str in
    {| lg_handlers := <[name := kept ++ [fh]]> (lg_handlers st);
       lg_cache := <[engine := (date_str, fh)]> (lg_cache st) |}
  else st.

(** The [FileHandler]s of the logger of [engine]. *)
Definition file_handlers (engine : string) (st : LoggerState) : list Handler :=
  List.filter is_file_handler
    (default [] (lg_handlers st !! logger_name engine)).

(** ** The analysis and alert loop of the older script *)

Module LegacyMonitor.

(** The keys of [SEARCH_ENGINES], in the order of the dict literal. *)
Definition ENGINE_ORDER : list string :=
  ["google"; "bing"; "yandex"; "duckduckgo"].

Definition THRESHOLD_SUCCESS_RATE : Q := 95 # 1.
Definition THRESHOLD_TIMEOUT_RATE : Q := 10 # 1.

(** [for engine in SEARCH_ENGINES: ...] on the grouped results of one
    minute; [grouped[engine]] of a [defaultdict(list)] is the empty list for
    an engine without results. *)
Fixpoint analyze_and_alert (grouped : list (string * list ProbeResult))
    (engines : list string) (status_window : gmap string EngineWindow)
  : Outcome (gmap string EngineWindow * list AlertCall) :=
  match engines with
  | [] => Return (status_window, [])
  | engine :: rest =>
      let group := default [] (dict_get engine grouped) in
      let total := length group in
      if (total =? 0)%nat then analyze_and_alert grouped rest status_window
      else
        let success := count_if pr_success group in
        let timeout := count_if pr_is_timeout group in
        let exceptions := count_if (fun r => is_5xx (pr_status r)) group in
        let errors := count_if (fun r => (pr_status r =? 0)%Z) group in
        let sr := rate success total in
        let tr := rate timeout total in
        let er := rate exceptions total in
        let err := rate errors total in
        match status_window !! engine with
        | None => Raise (KeyError engine)
        | Some s =>
            let s :=
              {| w_success_rate := deque_append sr (w_success_rate s);
                 w_timeout_rate := deque_append tr (w_timeout_rate s);
                 w_exception_rate := deque_append er (w_exception_rate s);
                 w_error_rate := deque_append err (w_error_rate s) |} in
            let status_window := <[engine := s]> status_window in
            let success_alert :=
              if three_and_all (fun x => ltb x THRESHOLD_SUCCESS_RATE)
                   (w_success_rate s)
              then [SuccessRateAlert engine THRESHOLD_SUCCESS_RATE
                      (dq_items (w_success_rate s))]
              else [] in
            let timeout_alert :=
              if three_and_all (fun x => gtb x THRESHOLD_TIMEOUT_RATE)
                   (w_timeout_rate s)
              then [TimeoutRateAlert engine THRESHOLD_TIMEOUT_RATE
                      (dq_items (w_timeout_rate s))]
              else [] in
            match found_3_in_row group with
            | Raise e => Raise e
            | Return found =>
                match analyze_and_alert grouped rest status_window with
                | Raise e => Raise e
                | Return (status_window, more) =>
                    Return (status_window,
                            success_alert ++ timeout_alert
                            ++ (if found then [BurstAlert engine] else [])
                            ++ more)
                end
            end
        end
  end.

(** The part of one minute after [asyncio.gather]. *)
Definition cycle (results : list ProbeResult)
    (status_window : gmap string EngineWindow)
  : Outcome (gmap string EngineWindow * list AlertCall) :=
  analyze_and_alert (group_by_engine results) ENGINE_ORDER status_window.

End LegacyMonitor.

(** * Vocabulary of the statements *)

Definition ts_le (a b : ProbeResult) : Prop :=
  (pr_timestamp a <= pr_timestamp b)%Q.

(** Positions [i], [i+1], [i+2] of [codes] all hold a 5xx code. *)
Definition burst_at (codes : list Z) (i : nat) : Prop :=
  exists c0 c1 c2,
    nth_error codes i = Some c0 /\
    nth_error codes (i + 1) = Some c1 /\
    nth_error codes (i + 2) = Some c2 /\
    In c0 [500; 502; 504] /\ In c1 [500; 502; 504] /\ In c2 [500; 502; 504].

(** The last [n] items of a list, oldest first. *)
Definition last_n {A} (n : nat) (l : list A) : list A :=
  skipn (length l - n) l.

(** The windows of one engine after the cycles of [history]. *)
Definition window_after (history : list CycleStats) : EngineWindow :=
  fold_left push_rates history new_window.

(** [r["engine"] == engine]. *)
Definition of_engine (engine : string) (r : ProbeResult) : bool :=
  String.eqb (pr_engine r) engine.

Definition deque_ok (d : Deque) : Prop :=
  dq_maxlen d = 3%nat /\ (length (dq_items d) <= 3)%nat.

Definition window_ok (s : EngineWindow) : Prop :=
  deque_ok (w_success_rate s) /\ deque_ok (w_timeout_rate s) /\
  deque_ok (w_exception_rate s) /\ deque_ok (w_error_rate s).

Definition windows_ok (status_window : gmap string EngineWindow) : Prop :=
  forall engine s, status_window !! engine = Some s -> window_ok s.

(** The tasks in flight hold exactly the permits the semaphore gave out. *)
Definition permits_accounted (cap : Z) (st : CycleState) : Prop :=
  (0 <= sem_value st)%Z /\ (sem_value st + Z.of_nat (in_flight st) = cap)%Z.

(** A result that [fetch] returned from its [except] block. *)
Definition failed_probe (r : ProbeResult) : Prop :=
  exists cfg e clk engine term,
    snd (fetch cfg (Failed e) clk engine term) = Return r.

(** The totals of all entries of an analysis, added up. *)
Definition sum_totals (analysis : list (string * CycleStats)) : nat :=
  list_sum (map (fun kv => cs_total (snd kv)) analysis).


Definition sum_groups (grouped : list (string * list ProbeResult)) : nat :=
  list_sum (map (fun kv => length (snd kv)) grouped).

(** Every cached engine has exactly its cached file handler, on the file of
    its cached date. *)
Definition logger_consistent (log_dir : string) (st : LoggerState) : Prop :=
  forall engine date h,
    lg_cache st !! engine = Some (date, h) ->
    h = FileHandler log_dir engine date /\ file_handlers engine st = [h].

(** The entries that the loop of the older script works through. *)
Definition legacy_items (results : list ProbeResult) (engines : list string)
  : list (string * CycleStats) :=
  flat_map (fun engine =>
              match List.filter (of_engine engine) results with
              | [] => []
              | group => [(engine, engine_stats group)]
              end) engines.

(** Two runs of a loop agree: both raise, or both return the same windows
    and the same alerts up to their order. *)
Definition same_outcome
    (o1 o2 : Outcome (gmap string EngineWindow * list AlertCall)) : Prop :=
  match o1, o2 with
  | Return (w1, a1), Return (w2, a2) => w1 = w2 /\ Permutation a1 a2
  | Raise _, Raise _ => True
  | _, _ => False
  end.

(** The characters of a string. *)
Fixpoint chars (s : string) : list ascii :=
  match s with
  | EmptyString => []
  | String c s' => c :: chars s'
  end.

(** The characters that may stand in a quoted term: letters, digits,
    [_.-~/] and the percent sign of an escape. *)
Definition url_chars : string :=
  "ABCDEFGHIJKLMNOPQRSTUVWXYZabcdefghijklmnopqrstuvwxyz0123456789_.-~/%".

(** The value of a hexadecimal digit. *)
Definition hex_value (c : ascii) : nat :=
  let n := nat_of_ascii c in
  if ((48 <=? n) && (n <=? 57))%nat then (n - 48)%nat
  else if ((65 <=? n) && (n <=? 70))%nat then (n - 55)%nat
  else (n - 87)%nat.

(** Percent-decoding, as the receiver of the URL does it: [%XY] stands for
    the byte with the hexadecimal digits X and Y, every other character for
    itself. *)
Fixpoint unquote (s : string) : string :=
  match s with
  | EmptyString => EmptyString
  | String c s' =>
      match s' with
      | String h (String l s'') =>
          if Ascii.eqb c "%"
          then String (ascii_of_nat (16 * hex_value h + hex_value l))
                      (unquote s'')
          else String c (unquote s')
      | _ => String c (unquote s')
      end
  end.

(** * Concrete inputs *)

Definition example_cfg : Config :=
  {| search_engines :=
       {[ "x" := {| ec_domain := Some "www.google.com";
                    ec_param := Some "q";
                    ec_engine := Some "google" |} ]};
     concurrency := 2;
     requests_per_engine := 5;
     monitor_duration_minutes := 3;
     threshold_success_rate := 95 # 1;
     threshold_timeout_rate := 10 # 1;
     timeout_limit := 10 # 1;
     min_content_size_kb := 2 # 1 |}.

Fixpoint filler (n : nat) : string :=
  match n with
  | O => EmptyString
  | S n' => String "a" (filler n')
  end.

Definition example_response : Response :=
  {| resp_status := 200;
     resp_content_type := Some "application/json";
     resp_text := filler 3072 |}.

Definition example_html_response : Response :=
  {| resp_status := 200;
     resp_content_type := Some "text/HTML; charset=utf-8";
     resp_text := filler 3072 |}.

Definition example_clock : Clock :=
  {| t_start := 100 # 1; t_done := 225 # 2; t_stamp := 113 # 1 |}.

Definition example_result : ProbeResult :=
  {| pr_engine := "x";
     pr_term := "Soy Milk";
     pr_status := 200;
     pr_elapsed := Qminus (225 # 2) (100 # 1);
     pr_is_timeout := true;
     pr_success := true;
     pr_exception := None;
     pr_content_size := 3072 # 1024;
     pr_timestamp := 113 # 1 |}.

Definition example_exn : Exn :=
  {| exn_type := "ClientConnectorError";
     exn_text := "Cannot connect to host" |}.

(** A result of engine "x" with the given status, verdict and timestamp. *)
Definition probe (status : Z) (ok : bool) (stamp : Q) : ProbeResult :=
  {| pr_engine := "x";
     pr_term := "Apple";
     pr_status := status;
     pr_elapsed := 1 # 1;
     pr_is_timeout := false;
     pr_success := ok;
     pr_exception := None;
     pr_content_size := 3 # 1;
     pr_timestamp := stamp |}.

Definition one_in_five : list ProbeResult :=
  [probe 200 true (1 # 1); probe 200 false (2 # 1); probe 403 false (3 # 1);
   probe 200 false (4 # 1); probe 404 false (5 # 1)].

Definition five_in_five : list ProbeResult :=
  [probe 200 true (1 # 1); probe 200 true (2 # 1); probe 200 true (3 # 1);
   probe 200 true (4 # 1); probe 200 true (5 # 1)].

(** Statuses 502, 502, 200, 502, 200 as gathered; by timestamp they read
    200, 502, 502, 502, 200. *)
Definition burst_batch : list ProbeResult :=
  [probe 502 false (4 # 1); probe 502 false (2 # 1); probe 200 true (5 # 1);
   probe 502 false (3 # 1); probe 200 true (1 # 1)].

Definition alternating_batch : list ProbeResult :=
  [probe 502 false (1 # 1); probe 200 true (2 # 1); probe 502 false (3 # 1);
   probe 200 true (4 # 1); probe 502 false (5 # 1)].

Definition two_results : list ProbeResult :=
  [probe 502 false (1 # 1); probe 504 false (2 # 1)].

Definition low_window : EngineWindow :=
  window_after [engine_stats one_in_five; engine_stats one_in_five;
                engine_stats one_in_five].

Definition example_batch : list (string * string) :=
  [("x", "Apple"); ("x", "Bread"); ("x", "Cheese"); ("x", "Salmon");
   ("x", "Tofu")].

Definition two_in_flight : CycleState :=
  {| sem_value := 0;
     tasks := [InFlight; Waiting; InFlight; Waiting; Waiting] |}.

Definition example_failed : ProbeResult :=
  {| pr_engine := "x";
     pr_term := "Soy Milk";
     pr_status := 0;
     pr_elapsed := Qminus (225 # 2) (100 # 1);
     pr_is_timeout := true;
     pr_success := false;
     pr_exception := Some "ClientConnectorError: Cannot connect to host";
     pr_content_size := 0 # 1;
     pr_timestamp := 113 # 1 |}.

Definition example_payload : Payload :=
  {| pl_url := "https://www.google.com/search?q=a%26b%3Dc%20d&json=1";
     pl_params := [("engine", "google"); ("q", "a&b=c d"); ("json", "1")] |}.

Definition two_engine_cfg : Config :=
  {| search_engines :=
       {[ "x" := {| ec_domain := Some "www.google.com";
                    ec_param := Some "q";
                    ec_engine := Some "google" |};
          "y" := {| ec_domain := Some "www.bing.com";
                    ec_param := Some "q";
                    ec_engine := None |} ]};
     concurrency := 0;
     requests_per_engine := 5;
     monitor_duration_minutes := 3;
     threshold_success_rate := 95 # 1;
     threshold_timeout_rate := 10 # 1;
     timeout_limit := 10 # 1;
     min_content_size_kb := 2 # 1 |}.

Definition only_x : Args :=
  {| args_engines := Some ["x"]; args_duration := None |}.

Definition five_waiting : CycleState :=
  {| sem_value := 2; tasks := [Waiting; Waiting; Waiting; Waiting; Waiting] |}.

Definition stuck_cycle : CycleState :=
  {| sem_value := 0; tasks := [Waiting; Waiting; Waiting; Waiting; Waiting] |}.

Definition no_loggers : LoggerState :=
  {| lg_handlers := ∅; lg_cache := ∅ |}.

Definition legacy_batch : list ProbeResult :=
  [ {| pr_engine := "bing"; pr_term := "Tofu"; pr_status := 502;
       pr_elapsed := 1 # 1; pr_is_timeout := false; pr_success := false;
       pr_exception := None; pr_content_size := 0 # 1;
       pr_timestamp := 2 # 1 |};
    {| pr_engine := "google"; pr_term := "Rice"; pr_status := 200;
       pr_elapsed := 1 # 1; pr_is_timeout := false; pr_success := true;
       pr_exception := None; pr_content_size := 3 # 1;
       pr_timestamp := 1 # 1 |} ].

(** * Properties *)

(** ** Comparisons and substring search *)

Lemma ltb_lt (x y : Q) : ltb x y = true <-> (x < y)%Q.
Proof.
  unfold ltb. rewrite negb_true_iff, <- not_true_iff_false, Qle_bool_iff.
  split; [apply Qnot_le_lt | apply Qlt_not_le].
Qed.

Lemma gtb_gt (x y : Q) : gtb x y = true <-> (y < x)%Q.
Proof. apply ltb_lt. Qed.

Lemma geb_ge (x y : Q) : geb x y = true <-> (y <= x)%Q.
Proof. apply Qle_bool_iff. Qed.

Lemma ltb_false_ge (x y : Q) : ltb x y = false <-> (y <= x)%Q.
Proof.
  unfold ltb. rewrite negb_false_iff. apply Qle_bool_iff.
Qed.

Lemma append_cons (c : ascii) (s t : string) :
  String c s +:+ t = String c (s +:+ t).
Proof. reflexivity. Qed.

Lemma append_nil (t : string) : "" +:+ t = t.
Proof. reflexivity. Qed.

Lemma prefix_app (needle hay : string) :
  String.prefix needle hay = true <-> exists post, hay = needle +:+ post.
Proof.
  revert hay. induction needle as [|c needle IH]; intros hay.
  - split; [intros _; now exists hay | now destruct hay].
  - destruct hay as [|c' hay]; simpl.
    + split; [discriminate | intros [post Hpost]; discriminate].
    + destruct (Ascii.ascii_dec c c') as [->|Hne].
      * rewrite IH. split; intros [post Hpost]; exists post.
        -- rewrite append_cons. now rewrite Hpost.
        -- rewrite append_cons in Hpost. congruence.
      * split; [discriminate|]. intros [post Hpost].
        rewrite append_cons in Hpost. congruence.
Qed.

(** [needle in hay] holds exactly when [hay] splits around [needle]. *)
Lemma contains_infix (needle hay : string) :
  contains needle hay = true <->
  exists pre post, hay = pre +:+ needle +:+ post.
Proof.
  induction hay as [|c hay IH].
  - cbn [contains]. rewrite orb_false_r, prefix_app. split.
    + intros [post Hpost]. now exists EmptyString, post.
    + intros [pre [post Hpost]]. destruct pre; [now exists post | discriminate].
  - cbn [contains]. rewrite orb_true_iff, prefix_app, IH. split.
    + intros [[post Hpost] | [pre [post Hpost]]].
      * now exists EmptyString, post.
      * exists (String c pre), post. rewrite append_cons. now rewrite Hpost.
    + intros [pre [post Hpost]]. destruct pre as [|c' pre].
      * left. now exists post.
      * right. exists pre, post. rewrite append_cons in Hpost. congruence.
Qed.

(** ** [fetch] *)

Lemma fetch_handler_raises cfg clk engine term e e' :
  build_payload cfg engine term = Raise e' ->
  fetch_handler cfg clk engine term e = ([], Raise e').
Proof. intros Hp. unfold fetch_handler. now rewrite Hp. Qed.

(** A result built from a response comes from the [try] branch. *)
Lemma fetch_responded_inv cfg r clk engine term logs p :
  fetch cfg (Responded r) clk engine term = (logs, Return p) ->
  p = {| pr_engine := engine;
         pr_term := term;
         pr_status := resp_status r;
         pr_elapsed := Qminus (t_done clk) (t_start clk);
         pr_is_timeout :=
           gtb (Qminus (t_done clk) (t_start clk)) (timeout_limit cfg);
         pr_success := response_is_success cfg r;
         pr_exception := None;
         pr_content_size := content_size_kb (resp_text r);
         pr_timestamp := t_stamp clk |}.
Proof.
  unfold fetch. destruct (build_payload cfg engine term) as [payload|e'] eqn:Hp.
  - intros [= _ <-]. reflexivity.
  - rewrite (fetch_handler_raises _ _ _ _ _ _ Hp). discriminate.
Qed.

Lemma response_is_success_iff cfg r :
  response_is_success cfg r = true <->
  resp_status r = 200 /\
  ~ (exists pre post,
       lower (default "" (resp_content_type r)) = pre +:+ "html" +:+ post) /\
  (min_content_size_kb cfg <= content_size_kb (resp_text r))%Q.
Proof.
  unfold response_is_success.
  rewrite !andb_true_iff, Z.eqb_eq, negb_true_iff, geb_ge.
  rewrite <- not_true_iff_false, contains_infix. tauto.
Qed.

(** X31. A result that [serp_monitor.fetch] builds from a response has
    [success] true exactly when the status is 200, the lowered Content-Type
    header (the empty string when absent) has no occurrence of "html", and
    the number of bytes of the body divided by 1024 reaches
    [min_content_size_kb]; that quotient is the result's [content_size]. *)
Theorem fetch_success_iff cfg r clk engine term logs p :
  fetch cfg (Responded r) clk engine term = (logs, Return p) ->
  (pr_success p = true <->
   resp_status r = 200 /\
   ~ (exists pre post,
        lower (default "" (resp_content_type r)) = pre +:+ "html" +:+ post) /\
   (min_content_size_kb cfg
    <= Z.of_nat (String.length (resp_text r)) # 1024)%Q) /\
  pr_content_size p = (Z.of_nat (String.length (resp_text r)) # 1024)%Q.
Proof.
  intros Hf. rewrite (fetch_responded_inv _ _ _ _ _ _ _ Hf). simpl.
  split; [|reflexivity].
  rewrite response_is_success_iff. unfold content_size_kb. tauto.
Qed.

(** C6. A result that [fetch] builds from a response has [is_timeout] true
    exactly when its elapsed time is above [timeout_limit], whatever the
    response is. *)
Theorem fetch_is_timeout_iff cfg r clk engine term logs p :
  fetch cfg (Responded r) clk engine term = (logs, Return p) ->
  pr_is_timeout p = true <-> (timeout_limit cfg < pr_elapsed p)%Q.
Proof.
  intros Hf. rewrite (fetch_responded_inv _ _ _ _ _ _ _ Hf). simpl.
  apply gtb_gt.
Qed.

(** The flag does not depend on what the response holds. *)
Lemma fetch_is_timeout_independent cfg r r' clk engine term logs logs' p p' :
  fetch cfg (Responded r) clk engine term = (logs, Return p) ->
  fetch cfg (Responded r') clk engine term = (logs', Return p') ->
  pr_is_timeout p = pr_is_timeout p'.
Proof.
  intros Hf Hf'.
  rewrite (fetch_responded_inv _ _ _ _ _ _ _ Hf).
  now rewrite (fetch_responded_inv _ _ _ _ _ _ _ Hf').
Qed.

(** C4. When the network call of a probe raises, [fetch] returns a result
    with status 0, [success] false, [is_timeout] true, the time spent until
    the failure, size 0 and the diagnostic "class: message". *)
Theorem fetch_failure_result cfg e clk engine term payload :
  build_payload cfg engine term = Return payload ->
  snd (fetch cfg (Failed e) clk engine term) =
  Return {| pr_engine := engine;
            pr_term := term;
            pr_status := 0;
            pr_elapsed := Qminus (t_done clk) (t_start clk);
            pr_is_timeout := true;
            pr_success := false;
            pr_exception := Some (exn_type e +:+ ": " +:+ exn_text e);
            pr_content_size := 0%Q;
            pr_timestamp := t_stamp clk |}.
Proof.
  intros Hp. unfold fetch, fetch_handler. rewrite Hp. reflexivity.
Qed.

(** The failure is written once to the engine's log. *)
Lemma fetch_failure_logged cfg e clk engine term payload :
  build_payload cfg engine term = Return payload ->
  fst (fetch cfg (Failed e) clk engine term) =
  [LogRequestFailed engine term (pl_url payload) (exn_type e) (exn_text e)
     (Qminus (t_done clk) (t_start clk))].
Proof.
  intros Hp. unfold fetch, fetch_handler. rewrite Hp. reflexivity.
Qed.

(** With a payload that can be built, [fetch] returns a result when the
    network call completes or raises an [Exception]. *)
Lemma fetch_returns cfg net clk engine term payload :
  build_payload cfg engine term = Return payload ->
  (forall e, net <> Aborted e) ->
  exists logs p, fetch cfg net clk engine term = (logs, Return p).
Proof.
  intros Hp Hnet. unfold fetch, fetch_handler. rewrite Hp.
  destruct net as [r|e|e]; eauto. now contradiction (Hnet e).
Qed.

(** A [BaseException] at an await leaves [fetch] as it is, without a log
    line. *)
Lemma fetch_aborted cfg clk engine term payload e :
  build_payload cfg engine term = Return payload ->
  fetch cfg (Aborted e) clk engine term = ([], Raise e).
Proof. intros Hp. unfold fetch. now rewrite Hp. Qed.

(** With an engine entry that lacks a key, the handler's own call of
    [build_payload] raises again and the [KeyError] leaves [fetch]; the
    network call is never reached on such a probe. *)
Lemma fetch_propagates_payload_error cfg net clk engine term e' :
  build_payload cfg engine term = Raise e' ->
  fetch cfg net clk engine term = ([], Raise e').
Proof.
  intros Hp. unfold fetch. rewrite Hp. now apply fetch_handler_raises.
Qed.

(** ** Sorting by completion timestamp *)

Lemma insert_by_timestamp_perm r l :
  Permutation (r :: l) (insert_by_timestamp r l).
Proof.
  induction l as [|x l IH]; simpl; [reflexivity|].
  destruct (Qle_bool (pr_timestamp r) (pr_timestamp x)); [reflexivity|].
  rewrite perm_swap. now apply perm_skip.
Qed.

Lemma sorted_by_timestamp_perm l : Permutation l (sorted_by_timestamp l).
Proof.
  induction l as [|x l IH]; simpl; [reflexivity|].
  rewrite <- insert_by_timestamp_perm. now apply perm_skip.
Qed.

Lemma insert_by_timestamp_sorted r l :
  StronglySorted ts_le l -> StronglySorted ts_le (insert_by_timestamp r l).
Proof.
  induction 1 as [|x l Hs IH Hx]; simpl.
  - repeat constructor.
  - destruct (Qle_bool (pr_timestamp r) (pr_timestamp x)) eqn:Hc.
    + apply Qle_bool_iff in Hc. constructor; [now constructor|].
      constructor; [exact Hc|].
      eapply Forall_impl; [exact Hx|]. intros y Hy. unfold ts_le in *.
      eapply Qle_trans; eassumption.
    + constructor; [exact IH|].
      eapply Permutation_Forall; [apply insert_by_timestamp_perm|].
      constructor; [|exact Hx].
      apply Qlt_le_weak, Qnot_le_lt. intros Hle.
      apply Qle_bool_iff in Hle. congruence.
Qed.

Lemma sorted_by_timestamp_sorted l :
  StronglySorted ts_le (sorted_by_timestamp l).
Proof.
  induction l as [|x l IH]; simpl; [constructor|].
  now apply insert_by_timestamp_sorted.
Qed.

Lemma insert_by_timestamp_stable t r l :
  List.filter (fun x => Qeq_bool (pr_timestamp x) t) (insert_by_timestamp r l) =
  List.filter (fun x => Qeq_bool (pr_timestamp x) t) (r :: l).
Proof.
  induction l as [|x l IH]; [reflexivity|].
  cbn [insert_by_timestamp].
  destruct (Qle_bool (pr_timestamp r) (pr_timestamp x)) eqn:Hc; [reflexivity|].
  cbn [List.filter] in *. rewrite IH.
  destruct (Qeq_bool (pr_timestamp r) t) eqn:Hr; [|reflexivity].
  destruct (Qeq_bool (pr_timestamp x) t) eqn:Hx; [|reflexivity].
  apply Qeq_bool_iff in Hr, Hx.
  assert (Hle : Qle_bool (pr_timestamp r) (pr_timestamp x) = true).
  { apply Qle_bool_iff. rewrite Hr, Hx. apply Qle_refl. }
  congruence.
Qed.

(** X18. The sort is stable: results that share a timestamp are scanned
    by the burst rule in the order in which the batch holds them. *)
Theorem sorted_by_timestamp_stable t l :
  List.filter (fun x => Qeq_bool (pr_timestamp x) t) (sorted_by_timestamp l) =
  List.filter (fun x => Qeq_bool (pr_timestamp x) t) l.
Proof.
  induction l as [|x l IH]; [reflexivity|].
  cbn [sorted_by_timestamp fold_right]. rewrite insert_by_timestamp_stable.
  cbn [List.filter]. fold (sorted_by_timestamp l). now rewrite IH.
Qed.

(** ** The burst rule *)

Lemma is_5xx_In (c : Z) : is_5xx c = true <-> In c [500; 502; 504].
Proof.
  unfold is_5xx. rewrite !orb_true_iff, !Z.eqb_eq. simpl.
  intuition congruence.
Qed.

Lemma burst_at_in_range codes i :
  burst_at codes i -> (i + 2 < length codes)%nat.
Proof.
  intros (c0 & c1 & c2 & _ & _ & H2 & _).
  apply nth_error_Some. congruence.
Qed.

Lemma code_at_in_range codes i :
  (i < length codes)%nat -> exists c, nth_error codes i = Some c /\
                                      code_at codes i = Return c.
Proof.
  intros Hi. unfold code_at.
  destruct (nth_error codes i) as [c|] eqn:Hc; [now exists c|].
  apply nth_error_None in Hc. lia.
Qed.

(** On indices that leave room for two successors, the scan never raises
    and answers whether some index starts a run of three. *)
Lemma any_triple_spec codes indices :
  Forall (fun i => (i + 2 < length codes)%nat) indices ->
  exists found,
    any_triple codes indices = Return found /\
    (found = true <-> exists i, In i indices /\ burst_at codes i).
Proof.
  induction 1 as [|i rest Hi Hrest (found & Hfound & Hiff)].
  - exists false. split; [reflexivity|].
    split; [discriminate | intros (i & [] & _)].
  - destruct (code_at_in_range codes i) as (c0 & Hn0 & Hc0); [lia|].
    destruct (code_at_in_range codes (i + 1)) as (c1 & Hn1 & Hc1); [lia|].
    destruct (code_at_in_range codes (i + 2)) as (c2 & Hn2 & Hc2); [lia|].
    assert (Hhere : burst_at codes i <->
                    is_5xx c0 && is_5xx c1 && is_5xx c2 = true).
    { rewrite !andb_true_iff, !is_5xx_In. unfold burst_at. split.
      - intros (d0 & d1 & d2 & E0 & E1 & E2 & I0 & I1 & I2).
        rewrite Hn0 in E0. rewrite Hn1 in E1. rewrite Hn2 in E2.
        injection E0 as <-. injection E1 as <-. injection E2 as <-. tauto.
      - intros [[I0 I1] I2]. now exists c0, c1, c2. }
    assert (Hskip : is_5xx c0 && is_5xx c1 && is_5xx c2 = false ->
                    exists found',
                      any_triple codes (i :: rest) = Return found' /\
                      (found' = true <->
                       exists j, In j (i :: rest) /\ burst_at codes j)).
    { intros Hno. exists found. split.
      - cbn [any_triple]. rewrite Hc0, Hc1, Hc2.
        destruct (is_5xx c0), (is_5xx c1), (is_5xx c2);
          simpl in *; try discriminate; exact Hfound.
      - rewrite Hiff. split.
        + intros (j & Hj & Hb). exists j. split; [now right | exact Hb].
        + intros (j & [<- | Hj] & Hb).
          * apply Hhere in Hb. congruence.
          * now exists j. }
    destruct (is_5xx c0 && is_5xx c1 && is_5xx c2) eqn:Hall.
    + exists true. split.
      * cbn [any_triple]. rewrite Hc0, Hc1, Hc2.
        apply andb_true_iff in Hall as [Hall ->].
        apply andb_true_iff in Hall as [-> ->]. reflexivity.
      * split; [|reflexivity]. intros _. exists i. split; [now left|].
        now apply Hhere.
    + now apply Hskip.
Qed.

Lemma In_range (n : Z) (i : nat) : In i (range n) <-> (Z.of_nat i < n)%Z.
Proof. unfold range. rewrite in_seq. lia. Qed.

(** [found_3_in_row] never raises; it is true exactly when three consecutive
    positions of the timestamp-sorted codes are 5xx. *)
Lemma found_3_in_row_spec results :
  exists found,
    found_3_in_row results = Return found /\
    (found = true <->
     exists i, burst_at (map pr_status (sorted_by_timestamp results)) i).
Proof.
  unfold found_3_in_row.
  set (codes := map pr_status (sorted_by_timestamp results)).
  destruct (any_triple_spec codes (range (Z.of_nat (length codes) - 2)))
    as (found & Hfound & Hiff).
  { apply List.Forall_forall. intros i Hi. apply In_range in Hi. lia. }
  exists found. split; [exact Hfound|]. rewrite Hiff. split.
  - intros (i & _ & Hb). now exists i.
  - intros (i & Hb). exists i. split; [|exact Hb].
    apply In_range. apply burst_at_in_range in Hb. lia.
Qed.

(** ** [check_alerts] *)

Lemma three_and_all_iff (p : Q -> bool) (d : Deque) :
  three_and_all p d = true <->
  length (dq_items d) = 3%nat /\ (forall x, In x (dq_items d) -> p x = true).
Proof.
  unfold three_and_all.
  now rewrite andb_true_iff, Nat.eqb_eq, forallb_forall.
Qed.

(** With the engine's window present, [check_alerts] returns the calls of
    the three rules in their order. *)
Lemma check_alerts_returns cfg engine stats
    (status_window : gmap string EngineWindow) s :
  status_window !! engine = Some s ->
  exists found,
    found_3_in_row (cs_results stats) = Return found /\
    check_alerts cfg engine stats status_window =
    Return
      ((if three_and_all (fun x => ltb x (threshold_success_rate cfg))
             (w_success_rate s)
        then [SuccessRateAlert engine (threshold_success_rate cfg)
                (dq_items (w_success_rate s))]
        else [])
       ++ (if three_and_all (fun x => gtb x (threshold_timeout_rate cfg))
                (w_timeout_rate s)
           then [TimeoutRateAlert engine (threshold_timeout_rate cfg)
                   (dq_items (w_timeout_rate s))]
           else [])
       ++ (if found then [BurstAlert engine] else [])).
Proof.
  intros Hs.
  destruct (found_3_in_row_spec (cs_results stats)) as (found & Hf & _).
  exists found. split; [exact Hf|].
  unfold check_alerts. now rewrite Hs, Hf.
Qed.

Ltac alerts_cases :=
  rewrite !existsb_app;
  repeat match goal with
         | |- context [if ?b then _ else _] => destruct b eqn:?
         end; cbn [existsb is_success_alert is_timeout_alert is_burst_alert
                   orb].

Lemma check_alerts_success cfg engine stats
    (status_window : gmap string EngineWindow) s alerts :
  status_window !! engine = Some s ->
  check_alerts cfg engine stats status_window = Return alerts ->
  existsb is_success_alert alerts =
  three_and_all (fun x => ltb x (threshold_success_rate cfg))
    (w_success_rate s).
Proof.
  intros Hs Hc.
  destruct (check_alerts_returns cfg engine stats _ _ Hs) as (found & _ & Hr).
  rewrite Hr in Hc. injection Hc as <-.
  alerts_cases; reflexivity.
Qed.

Lemma check_alerts_timeout cfg engine stats
    (status_window : gmap string EngineWindow) s alerts :
  status_window !! engine = Some s ->
  check_alerts cfg engine stats status_window = Return alerts ->
  existsb is_timeout_alert alerts =
  three_and_all (fun x => gtb x (threshold_timeout_rate cfg))
    (w_timeout_rate s).
Proof.
  intros Hs Hc.
  destruct (check_alerts_returns cfg engine stats _ _ Hs) as (found & _ & Hr).
  rewrite Hr in Hc. injection Hc as <-.
  alerts_cases; reflexivity.
Qed.

Lemma check_alerts_burst cfg engine stats
    (status_window : gmap string EngineWindow) s alerts :
  status_window !! engine = Some s ->
  check_alerts cfg engine stats status_window = Return alerts ->
  found_3_in_row (cs_results stats) = Return (existsb is_burst_alert alerts).
Proof.
  intros Hs Hc.
  destruct (check_alerts_returns cfg engine stats _ _ Hs) as (found & Hf & Hr).
  rewrite Hr in Hc. injection Hc as <-. rewrite Hf. f_equal.
  alerts_cases; reflexivity.
Qed.

(** C2. For an engine whose window is [s], [check_alerts] returns, and its
    calls hold a success-rate alert exactly when the success-rate buffer has
    3 entries, all strictly below [threshold_success_rate]; an entry at or
    above the threshold rules the alert out. *)
Theorem success_rate_alert_iff cfg engine stats
    (status_window : gmap string EngineWindow) s :
  status_window !! engine = Some s ->
  exists alerts,
    check_alerts cfg engine stats status_window = Return alerts /\
    (existsb is_success_alert alerts = true <->
     length (dq_items (w_success_rate s)) = 3%nat /\
     (forall x, In x (dq_items (w_success_rate s)) ->
                (x < threshold_success_rate cfg)%Q)) /\
    ((exists x, In x (dq_items (w_success_rate s)) /\
                (threshold_success_rate cfg <= x)%Q) ->
     existsb is_success_alert alerts = false).
Proof.
  intros Hs.
  destruct (check_alerts_returns cfg engine stats _ _ Hs) as (found & _ & Hr).
  eexists. split; [exact Hr|].
  rewrite (check_alerts_success _ _ _ _ _ _ Hs Hr).
  assert (Hiff : three_and_all (fun x => ltb x (threshold_success_rate cfg))
                   (w_success_rate s) = true <->
                 length (dq_items (w_success_rate s)) = 3%nat /\
                 (forall x, In x (dq_items (w_success_rate s)) ->
                            (x < threshold_success_rate cfg)%Q)).
  { rewrite three_and_all_iff.
    split; intros [Hlen Hall]; (split; [exact Hlen|]);
      intros x Hx; apply ltb_lt; now apply Hall. }
  split; [exact Hiff|].
  intros (x & Hx & Hge). apply not_true_iff_false. intros Ht.
  apply Hiff in Ht as [_ Hall]. specialize (Hall x Hx).
  now apply Qlt_not_le in Hall.
Qed.

(** The timeout-rate rule is the mirror image, strictly above. *)
Lemma timeout_rate_alert_iff cfg engine stats
    (status_window : gmap string EngineWindow) s alerts :
  status_window !! engine = Some s ->
  check_alerts cfg engine stats status_window = Return alerts ->
  existsb is_timeout_alert alerts = true <->
  length (dq_items (w_timeout_rate s)) = 3%nat /\
  (forall x, In x (dq_items (w_timeout_rate s)) ->
             (threshold_timeout_rate cfg < x)%Q).
Proof.
  intros Hs Hc. rewrite (check_alerts_timeout _ _ _ _ _ _ Hs Hc).
  rewrite three_and_all_iff. split; intros [Hlen Hall]; (split; [exact Hlen|]);
    intros x Hx; apply gtb_gt; now apply Hall.
Qed.

(** The burst rule of [check_alerts], for both theorems on it. *)
Lemma check_alerts_burst_spec cfg engine stats
    (status_window : gmap string EngineWindow) s :
  status_window !! engine = Some s ->
  exists alerts,
    check_alerts cfg engine stats status_window = Return alerts /\
    (existsb is_burst_alert alerts = true <->
     exists i,
       burst_at (map pr_status (sorted_by_timestamp (cs_results stats))) i).
Proof.
  intros Hs.
  destruct (check_alerts_returns cfg engine stats _ _ Hs) as (found & Hf & Hr).
  eexists. split; [exact Hr|].
  pose proof (check_alerts_burst _ _ _ _ _ _ Hs Hr) as Hb.
  destruct (found_3_in_row_spec (cs_results stats)) as (found' & Hf' & Hiff).
  rewrite Hf' in Hb. injection Hb as Hb. rewrite <- Hb. exact Hiff.
Qed.

(** C3. For an engine whose window is present, [check_alerts] returns, the
    list it scans is the cycle's results in ascending order of timestamp,
    and its calls hold the burst alert exactly when three consecutive
    positions of that list have a status in {500, 502, 504}. *)
Theorem burst_alert_iff cfg engine stats
    (status_window : gmap string EngineWindow) s :
  status_window !! engine = Some s ->
  let sorted := sorted_by_timestamp (cs_results stats) in
  Permutation (cs_results stats) sorted /\
  StronglySorted ts_le sorted /\
  exists alerts,
    check_alerts cfg engine stats status_window = Return alerts /\
    (existsb is_burst_alert alerts = true <->
     exists i, burst_at (map pr_status sorted) i).
Proof.
  intros Hs sorted.
  split; [apply sorted_by_timestamp_perm|].
  split; [apply sorted_by_timestamp_sorted|].
  now apply check_alerts_burst_spec with s.
Qed.

(** C9. A group of fewer than 3 results never raises the burst alert. *)
Theorem burst_alert_needs_three cfg engine stats
    (status_window : gmap string EngineWindow) s :
  status_window !! engine = Some s ->
  (length (cs_results stats) < 3)%nat ->
  exists alerts,
    check_alerts cfg engine stats status_window = Return alerts /\
    existsb is_burst_alert alerts = false.
Proof.
  intros Hs Hlen.
  destruct (check_alerts_burst_spec cfg engine stats _ _ Hs)
    as (alerts & Hr & Hiff).
  exists alerts. split; [exact Hr|].
  apply not_true_iff_false. intros Ht. apply Hiff in Ht as (i & Hb).
  apply burst_at_in_range in Hb. rewrite length_map in Hb.
  pose proof (Permutation_length (sorted_by_timestamp_perm (cs_results stats))).
  lia.
Qed.

(** ** The rolling buffers *)

Lemma last_n_length {A} n (l : list A) :
  length (last_n n l) = Nat.min n (length l).
Proof. unfold last_n. rewrite length_skipn. lia. Qed.

Lemma last_n_all {A} n (l : list A) :
  (length l <= n)%nat -> last_n n l = l.
Proof.
  intros Hl. unfold last_n. now replace (length l - n)%nat with O by lia.
Qed.

Lemma last_n_snoc {A} n (l : list A) x :
  last_n (S n) (l ++ [x]) = last_n n l ++ [x].
Proof.
  unfold last_n. rewrite length_app. simpl length.
  replace (length l + 1 - S n)%nat with (length l - n)%nat by lia.
  rewrite skipn_app.
  replace (length l - n - length l)%nat with O by lia. reflexivity.
Qed.

Lemma tl_skipn {A} k (l : list A) : tl (skipn k l) = skipn (S k) l.
Proof.
  revert l. induction k as [|k IH]; intros [|x l]; try reflexivity.
  simpl. rewrite IH. now destruct l.
Qed.

Lemma tl_last_n {A} n (l : list A) :
  (n < length l)%nat -> tl (last_n (S n) l) = last_n n l.
Proof.
  intros Hl. unfold last_n. rewrite tl_skipn. f_equal. lia.
Qed.

(** A deque that shows the last [maxlen] items of what was appended so far
    still does after one more [append]. *)
Lemma deque_append_last_n (x : Q) (d : Deque) (pushed : list Q) :
  dq_items d = last_n (dq_maxlen d) pushed ->
  dq_items (deque_append x d) = last_n (dq_maxlen d) (pushed ++ [x]).
Proof.
  intros Hd. unfold deque_append. cbn [dq_items]. rewrite Hd.
  rewrite <- last_n_snoc.
  destruct (Nat.ltb_spec (dq_maxlen d)
              (length (last_n (S (dq_maxlen d)) (pushed ++ [x])))) as [Hlt|Hge].
  - rewrite last_n_length in Hlt. apply tl_last_n. lia.
  - rewrite last_n_length, length_app in Hge.
    change (length [x]) with 1%nat in Hge.
    assert (Hall : (length (pushed ++ [x]) <= dq_maxlen d)%nat)
      by (rewrite length_app; simpl; lia).
    rewrite (last_n_all (dq_maxlen d)) by exact Hall.
    apply last_n_all. lia.
Qed.

Lemma deque_append_maxlen x d : dq_maxlen (deque_append x d) = dq_maxlen d.
Proof. reflexivity. Qed.

Lemma deque_append_bounded x d :
  (length (dq_items d) <= dq_maxlen d)%nat ->
  (length (dq_items (deque_append x d)) <= dq_maxlen d)%nat.
Proof.
  intros Hd. unfold deque_append. cbn [dq_items].
  destruct (Nat.ltb_spec (dq_maxlen d) (length (dq_items d ++ [x])))
    as [Hlt|Hge]; [|exact Hge].
  rewrite length_app in *. simpl in *.
  destruct (dq_items d ++ [x]) eqn:E; simpl; [lia|].
  apply (f_equal (@length Q)) in E. rewrite length_app in E. simpl in E. lia.
Qed.

Lemma window_after_snoc history stats :
  window_after (history ++ [stats]) = push_rates (window_after history) stats.
Proof. unfold window_after. now rewrite fold_left_app. Qed.

Lemma window_after_shape history :
  let s := window_after history in
  (dq_maxlen (w_success_rate s) = 3%nat /\
   dq_items (w_success_rate s) = last_n 3 (map cs_success_rate history)) /\
  (dq_maxlen (w_timeout_rate s) = 3%nat /\
   dq_items (w_timeout_rate s) = last_n 3 (map cs_timeout_rate history)) /\
  (dq_maxlen (w_exception_rate s) = 3%nat /\
   dq_items (w_exception_rate s) = last_n 3 (map cs_exception_rate history)) /\
  (dq_maxlen (w_error_rate s) = 3%nat /\
   dq_items (w_error_rate s) = last_n 3 (map cs_error_rate history)).
Proof.
  induction history as [|stats history IH] using rev_ind.
  - cbv. tauto.
  - rewrite window_after_snoc. cbv zeta in *. rewrite !map_app. simpl map.
    destruct IH as ((M1 & I1) & (M2 & I2) & (M3 & I3) & (M4 & I4)).
    unfold push_rates. cbn [w_success_rate w_timeout_rate w_exception_rate
                              w_error_rate].
    rewrite !deque_append_maxlen.
    repeat split; try assumption.
    + rewrite <- M1 at 1. apply deque_append_last_n. now rewrite M1.
    + rewrite <- M2 at 1. apply deque_append_last_n. now rewrite M2.
    + rewrite <- M3 at 1. apply deque_append_last_n. now rewrite M3.
    + rewrite <- M4 at 1. apply deque_append_last_n. now rewrite M4.
Qed.

(** C5. After any sequence of cycles each of the four buffers of an engine
    holds the rates of the last 3 cycles, oldest first, hence at most 3
    entries; an [append] on a buffer of 3 drops the oldest entry and keeps
    the other two, in order, before the new one. *)
Theorem rolling_buffers_keep_last_three (history : list CycleStats) :
  let s := window_after history in
  (dq_items (w_success_rate s) = last_n 3 (map cs_success_rate history) /\
   dq_items (w_timeout_rate s) = last_n 3 (map cs_timeout_rate history) /\
   dq_items (w_exception_rate s) = last_n 3 (map cs_exception_rate history) /\
   dq_items (w_error_rate s) = last_n 3 (map cs_error_rate history)) /\
  ((length (dq_items (w_success_rate s)) <= 3)%nat /\
   (length (dq_items (w_timeout_rate s)) <= 3)%nat /\
   (length (dq_items (w_exception_rate s)) <= 3)%nat /\
   (length (dq_items (w_error_rate s)) <= 3)%nat) /\
  (forall a b c x : Q,
     dq_items (deque_append x {| dq_maxlen := 3; dq_items := [a; b; c] |}) =
     [b; c; x]).
Proof.
  intros s.
  destruct (window_after_shape history)
    as ((_ & I1) & (_ & I2) & (_ & I3) & (_ & I4)).
  fold s in I1, I2, I3, I4.
  split; [tauto|]. split; [|reflexivity].
  rewrite I1, I2, I3, I4, !last_n_length. lia.
Qed.

(** ** Insertion-ordered dicts *)

Lemma dict_get_set {V} (k k' : string) (v : V) (d : list (string * V)) :
  dict_get k (dict_set k' v d) =
  if String.eqb k k' then Some v else dict_get k d.
Proof.
  induction d as [|[k0 v0] d IH]; simpl.
  - reflexivity.
  - destruct (String.eqb_spec k' k0) as [->|Hne]; simpl.
    + now destruct (String.eqb k k0).
    + rewrite IH. destruct (String.eqb_spec k k0) as [->|Hne'].
      * destruct (String.eqb_spec k0 k'); congruence.
      * reflexivity.
Qed.

Lemma dict_get_keys {V} (k : string) (d : list (string * V)) :
  In k (keys d) <-> dict_get k d <> None.
Proof.
  induction d as [|[k0 v0] d IH]; simpl.
  - tauto.
  - destruct (String.eqb_spec k k0) as [->|Hne].
    + split; [discriminate | now left].
    + rewrite <- IH. split; [intros [Hk | Hk]; congruence | now right].
Qed.

Lemma keys_dict_set {V} (k : string) (v : V) (d : list (string * V)) :
  keys (dict_set k v d) =
  match dict_get k d with Some _ => keys d | None => keys d ++ [k] end.
Proof.
  induction d as [|[k0 v0] d IH]; simpl.
  - reflexivity.
  - destruct (String.eqb k k0); simpl; [reflexivity|].
    rewrite IH. now destruct (dict_get k d).
Qed.

Lemma dict_set_NoDup {V} (k : string) (v : V) (d : list (string * V)) :
  NoDup (keys d) -> NoDup (keys (dict_set k v d)).
Proof.
  intros Hd. rewrite keys_dict_set.
  destruct (dict_get k d) eqn:Hk; [exact Hd|].
  apply NoDup_app. split; [exact Hd|]. split; [|apply NoDup_singleton].
  intros x Hx Hx'. apply list_elem_of_In in Hx, Hx'.
  destruct Hx' as [<-|[]]. apply dict_get_keys in Hx. congruence.
Qed.

(** ** [analyze_results] *)

Lemma grouped_append_get engine r grouped :
  dict_get engine (grouped_append r grouped) =
  if of_engine engine r
  then Some (default [] (dict_get engine grouped) ++ [r])
  else dict_get engine grouped.
Proof.
  unfold grouped_append, of_engine. rewrite dict_get_set.
  rewrite (String.eqb_sym (pr_engine r)).
  now destruct (String.eqb_spec engine (pr_engine r)) as [->|].
Qed.

Lemma fold_grouped_append_get engine results grouped :
  dict_get engine
    (fold_left (fun g r => grouped_append r g) results grouped) =
  match List.filter (of_engine engine) results with
  | [] => dict_get engine grouped
  | group => Some (default [] (dict_get engine grouped) ++ group)
  end.
Proof.
  revert grouped. induction results as [|r results IH]; intros grouped.
  - reflexivity.
  - cbn [fold_left List.filter]. rewrite IH, grouped_append_get.
    destruct (of_engine engine r); [|reflexivity].
    simpl. destruct (List.filter (of_engine engine) results).
    + reflexivity.
    + now rewrite <- app_assoc.
Qed.

(** The group of an engine is the sub-list of its results, in batch order;
    an engine without results has no group. *)
Lemma group_by_engine_get engine results :
  dict_get engine (group_by_engine results) =
  match List.filter (of_engine engine) results with
  | [] => None
  | group => Some group
  end.
Proof.
  unfold group_by_engine. rewrite fold_grouped_append_get. reflexivity.
Qed.

Lemma fold_grouped_append_NoDup results grouped :
  NoDup (keys grouped) ->
  NoDup (keys (fold_left (fun g r => grouped_append r g) results grouped)).
Proof.
  revert grouped. induction results as [|r results IH]; intros grouped Hg.
  - exact Hg.
  - simpl. apply IH. now apply dict_set_NoDup.
Qed.

Lemma group_by_engine_NoDup results : NoDup (keys (group_by_engine results)).
Proof. apply fold_grouped_append_NoDup. constructor. Qed.

Lemma fold_analysis_step_get engine grouped analysis :
  NoDup (keys grouped) ->
  dict_get engine (fold_left analysis_step grouped analysis) =
  match dict_get engine grouped with
  | Some group =>
      if (length group =? 0)%nat then dict_get engine analysis
      else Some (engine_stats group)
  | None => dict_get engine analysis
  end.
Proof.
  revert analysis.
  induction grouped as [|[k g] grouped IH]; intros analysis Hnd.
  - reflexivity.
  - change (keys ((k, g) :: grouped)) with (k :: keys grouped) in Hnd.
    apply NoDup_cons in Hnd as [Hk Hnd].
    cbn [fold_left]. rewrite IH by exact Hnd. cbn [dict_get].
    destruct (String.eqb_spec engine k) as [->|Hne].
    + assert (Hnone : dict_get k grouped = None).
      { destruct (dict_get k grouped) eqn:E; [|reflexivity].
        exfalso. apply Hk. apply list_elem_of_In, dict_get_keys. congruence. }
      rewrite Hnone. unfold analysis_step.
      destruct (length g =? 0)%nat; [reflexivity|].
      now rewrite dict_get_set, String.eqb_refl.
    + assert (Hacc : dict_get engine (analysis_step analysis (k, g)) =
                     dict_get engine analysis).
      { unfold analysis_step. destruct (length g =? 0)%nat; [reflexivity|].
        rewrite dict_get_set.
        now destruct (String.eqb_spec engine k). }
      now rewrite Hacc.
Qed.

(** The entry of an engine in the analysis: the statistics of its results,
    and no entry when it has none. *)
Lemma analyze_results_get engine results :
  dict_get engine (analyze_results results) =
  match List.filter (of_engine engine) results with
  | [] => None
  | group => Some (engine_stats group)
  end.
Proof.
  unfold analyze_results.
  rewrite fold_analysis_step_get by apply group_by_engine_NoDup.
  rewrite group_by_engine_get.
  now destruct (List.filter (of_engine engine) results).
Qed.

Lemma filter_of_engine_nil engine results :
  List.filter (of_engine engine) results = [] <->
  forall r, In r results -> pr_engine r <> engine.
Proof.
  induction results as [|r results IH]; simpl.
  - tauto.
  - unfold of_engine at 1.
    destruct (String.eqb_spec (pr_engine r) engine) as [He|Hne].
    + split; [discriminate|]. intros H. exfalso. apply (H r); auto.
    + rewrite IH. split.
      * intros H r' [<-|Hr']; auto.
      * intros H r' Hr'. apply H. now right.
Qed.

(** C7. An engine is a key of the analysis exactly when the batch holds a
    result of that engine; an engine without results has no entry, and an
    entry counts at least one result. *)
Theorem analysis_key_iff (results : list ProbeResult) (engine : string) :
  (In engine (keys (analyze_results results)) <->
   exists r, In r results /\ pr_engine r = engine) /\
  ((forall r, In r results -> pr_engine r <> engine) ->
   dict_get engine (analyze_results results) = None) /\
  (forall stats,
     dict_get engine (analyze_results results) = Some stats ->
     (0 < cs_total stats)%nat).
Proof.
  pose proof (analyze_results_get engine results) as Hget.
  pose proof (filter_of_engine_nil engine results) as Hnil.
  split; [|split].
  - rewrite dict_get_keys, Hget.
    destruct (List.filter (of_engine engine) results) as [|r0 group] eqn:Hf.
    + split; [congruence|]. intros (r & Hr & He).
      exfalso. exact (proj1 Hnil eq_refl r Hr He).
    + split; [|discriminate]. intros _. exists r0.
      assert (Hin : In r0 (List.filter (of_engine engine) results))
        by (rewrite Hf; now left).
      apply filter_In in Hin as [Hin He]. split; [exact Hin|].
      now apply String.eqb_eq.
  - intros Hno. rewrite Hget. now rewrite (proj2 Hnil Hno).
  - intros stats. rewrite Hget.
    destruct (List.filter (of_engine engine) results); [discriminate|].
    intros [= <-]. simpl. lia.
Qed.

(** ** Reordering the batch *)

Lemma count_if_perm {A} (p : A -> bool) (l l' : list A) :
  Permutation l l' -> count_if p l = count_if p l'.
Proof.
  induction 1 as [|x l l' _ IH|x y l|l l' l'' _ IH1 _ IH2]; simpl; lia.
Qed.

Lemma filter_perm {A} (p : A -> bool) (l l' : list A) :
  Permutation l l' -> Permutation (List.filter p l) (List.filter p l').
Proof.
  induction 1 as [|x l l' _ IH|x y l|l l' l'' _ IH1 _ IH2]; simpl.
  - reflexivity.
  - destruct (p x); [now apply perm_skip | exact IH].
  - destruct (p x), (p y); try reflexivity. apply perm_swap.
  - now transitivity (List.filter p l').
Qed.

Lemma engine_stats_perm (group group' : list ProbeResult) :
  Permutation group group' ->
  stats_numbers (engine_stats group) = stats_numbers (engine_stats group').
Proof.
  intros Hp. unfold stats_numbers, engine_stats. simpl.
  rewrite (Permutation_length Hp).
  rewrite (count_if_perm pr_success _ _ Hp).
  rewrite (count_if_perm pr_is_timeout _ _ Hp).
  rewrite (count_if_perm (fun r => is_5xx (pr_status r)) _ _ Hp).
  rewrite (count_if_perm (fun r => (pr_status r =? 0)%Z) _ _ Hp).
  reflexivity.
Qed.

(** C10. Reordering the batch changes neither which engines the analysis
    reports nor, for any engine, the total, the four counts and the four
    rounded rates. *)
Theorem analyze_results_permutation (results results' : list ProbeResult)
    (engine : string) :
  Permutation results results' ->
  stats_numbers <$> dict_get engine (analyze_results results) =
  stats_numbers <$> dict_get engine (analyze_results results').
Proof.
  intros Hp. rewrite !analyze_results_get.
  pose proof (filter_perm (of_engine engine) _ _ Hp) as Hf.
  destruct (List.filter (of_engine engine) results) as [|r group] eqn:E;
    destruct (List.filter (of_engine engine) results') as [|r' group'] eqn:E'.
  - reflexivity.
  - now apply Permutation_nil_cons in Hf.
  - symmetry in Hf. now apply Permutation_nil_cons in Hf.
  - simpl. f_equal. now apply engine_stats_perm.
Qed.

(** ** The windows along the cycles of [monitor] *)

Lemma deque_append_ok x d : deque_ok d -> deque_ok (deque_append x d).
Proof.
  intros [Hm Hl]. split; [exact Hm|].
  rewrite <- Hm. apply deque_append_bounded. now rewrite Hm.
Qed.

Lemma push_rates_ok s stats : window_ok s -> window_ok (push_rates s stats).
Proof.
  intros (H1 & H2 & H3 & H4). repeat split; now apply deque_append_ok.
Qed.

Lemma init_status_window_ok cfg : windows_ok (init_status_window cfg).
Proof.
  intros engine s. unfold init_status_window. rewrite lookup_fmap.
  destruct (search_engines cfg !! engine); [|discriminate].
  intros [= <-]. repeat split; simpl; lia.
Qed.

Lemma update_and_check_ok cfg analysis
    (status_window status_window' : gmap string EngineWindow) alerts :
  windows_ok status_window ->
  update_and_check cfg analysis status_window
  = Return (status_window', alerts) ->
  windows_ok status_window'.
Proof.
  revert status_window alerts.
  induction analysis as [|[engine stats] rest IH]; intros w alerts Hok.
  - intros [= <- _]. exact Hok.
  - cbn [update_and_check].
    destruct (w !! engine) as [s|] eqn:Hs; [|discriminate].
    destruct (check_alerts cfg engine stats (<[engine:=push_rates s stats]> w))
      as [now_alerts|]; [|discriminate].
    cbn [mbind outcome_bind].
    destruct (update_and_check cfg rest (<[engine:=push_rates s stats]> w))
      as [[w' more]|] eqn:Hrest; [|discriminate].
    intros [= <- _]. eapply IH; [|exact Hrest].
    intros e s'. rewrite lookup_insert. case_decide as He.
    + intros [= <-]. apply push_rates_ok. now apply (Hok engine).
    + apply Hok.
Qed.

(** Every window stays within 3 entries through the whole run. *)
Lemma run_cycles_ok cfg batches
    (status_window status_window' : gmap string EngineWindow) alerts :
  windows_ok status_window ->
  run_cycles cfg batches status_window = Return (status_window', alerts) ->
  windows_ok status_window'.
Proof.
  revert status_window alerts.
  induction batches as [|results later IH]; intros w alerts Hok.
  - intros [= <- _]. exact Hok.
  - cbn [run_cycles]. unfold cycle.
    destruct (update_and_check cfg (analyze_results results) w)
      as [[w1 alerts1]|] eqn:H1; [|discriminate].
    cbn [mbind outcome_bind].
    destruct (run_cycles cfg later w1) as [[w2 alerts2]|] eqn:H2;
      [|discriminate].
    intros [= <- _]. eapply IH; [|exact H2].
    eapply update_and_check_ok; eassumption.
Qed.

Lemma fold_analysis_step_NoDup grouped analysis :
  NoDup (keys analysis) ->
  NoDup (keys (fold_left analysis_step grouped analysis)).
Proof.
  revert analysis. induction grouped as [|[k g] grouped IH]; intros analysis Ha.
  - exact Ha.
  - cbn [fold_left]. apply IH. unfold analysis_step.
    destruct (length g =? 0)%nat; [exact Ha | now apply dict_set_NoDup].
Qed.

Lemma analyze_results_NoDup results : NoDup (keys (analyze_results results)).
Proof. apply fold_analysis_step_NoDup. constructor. Qed.

Lemma update_and_check_lookup cfg analysis
    (status_window status_window' : gmap string EngineWindow) alerts engine :
  NoDup (keys analysis) ->
  update_and_check cfg analysis status_window
  = Return (status_window', alerts) ->
  status_window' !! engine =
  match dict_get engine analysis with
  | Some stats => (fun s => push_rates s stats) <$> status_window !! engine
  | None => status_window !! engine
  end.
Proof.
  revert status_window alerts.
  induction analysis as [|[k stats] rest IH]; intros w alerts Hnd.
  - intros [= <- _]. reflexivity.
  - change (keys ((k, stats) :: rest)) with (k :: keys rest) in Hnd.
    apply NoDup_cons in Hnd as [Hk Hnd].
    cbn [update_and_check].
    destruct (w !! k) as [s|] eqn:Hs; [|discriminate].
    destruct (check_alerts cfg k stats (<[k:=push_rates s stats]> w))
      as [now_alerts|]; [|discriminate].
    cbn [mbind outcome_bind].
    destruct (update_and_check cfg rest (<[k:=push_rates s stats]> w))
      as [[w' more]|] eqn:Hrest; [|discriminate].
    intros [= <- _]. rewrite (IH _ _ Hnd Hrest). cbn [dict_get].
    destruct (String.eqb_spec engine k) as [->|Hne].
    + assert (Hnone : dict_get k rest = None).
      { destruct (dict_get k rest) eqn:E; [|reflexivity].
        exfalso. apply Hk. apply list_elem_of_In, dict_get_keys. congruence. }
      now rewrite Hnone, lookup_insert_eq, Hs.
    + rewrite lookup_insert_ne by congruence. reflexivity.
Qed.

(** X29. One cycle pushes exactly once onto the window of every engine that
    has results in the batch, the rates of those results, and leaves the
    window of every other engine as it was: a cycle without results for an
    engine is not recorded in its buffers. *)
Theorem cycle_lookup cfg results
    (status_window status_window' : gmap string EngineWindow) alerts engine :
  cycle cfg results status_window = Return (status_window', alerts) ->
  status_window' !! engine =
  match List.filter (of_engine engine) results with
  | [] => status_window !! engine
  | group =>
      (fun s => push_rates s (engine_stats group)) <$> status_window !! engine
  end.
Proof.
  intros Hc. unfold cycle in Hc.
  rewrite (update_and_check_lookup _ _ _ _ _ engine
             (analyze_results_NoDup results) Hc).
  rewrite analyze_results_get.
  now destruct (List.filter (of_engine engine) results).
Qed.

(** ** The concurrency cap *)

Lemma count_if_insert {A} (p : A -> bool) (l : list A) (i : nat) (old new : A) :
  l !! i = Some old ->
  (count_if p (<[i:=new]> l) + (if p old then 1 else 0) =
   count_if p l + (if p new then 1 else 0))%nat.
Proof.
  revert i. induction l as [|x l IH]; intros [|i] Hi; try discriminate.
  - injection Hi as ->. simpl. lia.
  - simpl in *. specialize (IH i Hi). lia.
Qed.

Lemma count_if_none {A B} (p : B -> bool) (f : A -> B) (l : list A) :
  (forall a, p (f a) = false) -> count_if p (map f l) = O.
Proof.
  intros Hp. induction l as [|a l IH]; simpl; [reflexivity|].
  now rewrite Hp, IH.
Qed.

Lemma task_step_accounted cap st st' :
  task_step st st' -> permits_accounted cap st -> permits_accounted cap st'.
Proof.
  intros Hstep [Hpos Hsum].
  destruct Hstep as [st i Hi Hfree | st i result Hi]; unfold permits_accounted,
    in_flight in *; cbn [sem_value tasks].
  - pose proof (count_if_insert is_in_flight _ _ _ InFlight Hi) as Hc.
    simpl in Hc. lia.
  - pose proof (count_if_insert is_in_flight _ _ _ (Done result) Hi) as Hc.
    simpl in Hc. lia.
Qed.

Lemma start_cycle_accounted cfg batch st0 :
  start_cycle cfg batch = Return st0 ->
  permits_accounted (concurrency cfg) st0.
Proof.
  unfold start_cycle, Semaphore.
  destruct (Z.ltb_spec (concurrency cfg) 0) as [Hneg|Hpos]; [discriminate|].
  intros [= <-]. split; [exact Hpos|].
  unfold in_flight. cbn [sem_value tasks].
  rewrite count_if_none by reflexivity. lia.
Qed.

Lemma reachable_accounted cfg (batch : list (string * string)) st0 st :
  start_cycle cfg batch = Return st0 ->
  rtc task_step st0 st ->
  permits_accounted (concurrency cfg) st.
Proof.
  intros Hstart Hreach. apply start_cycle_accounted in Hstart. revert Hstart.
  induction Hreach as [st|st st1 st2 Hstep _ IH]; intros Hinv.
  - exact Hinv.
  - apply IH. eapply task_step_accounted; eassumption.
Qed.

(** C8. In every state that the tasks of a cycle can reach, under any
    interleaving and for any batch, the number of tasks holding the cycle's
    semaphore is at most [concurrency]. *)
Theorem in_flight_bounded cfg (batch : list (string * string)) st0 st :
  start_cycle cfg batch = Return st0 ->
  rtc task_step st0 st ->
  (Z.of_nat (in_flight st) <= concurrency cfg)%Z.
Proof.
  intros Hstart Hreach.
  destruct (reachable_accounted _ _ _ _ Hstart Hreach) as [Hpos Hsum]. lia.
Qed.

(** A task cannot take the semaphore while [concurrency] tasks hold it. *)
Lemma acquire_needs_free_permit cfg (batch : list (string * string)) st0 st i :
  start_cycle cfg batch = Return st0 ->
  rtc task_step st0 st ->
  (Z.of_nat (in_flight st) = concurrency cfg)%Z ->
  ~ task_step st {| sem_value := sem_value st - 1;
                    tasks := <[i:=InFlight]> (tasks st) |}.
Proof.
  intros Hstart Hreach Hfull Hstep.
  destruct (reachable_accounted _ _ _ _ Hstart Hreach) as [Hpos Hsum].
  inversion Hstep as [st' j Hj Hfree Hst Heq | st' j result Hj Hst Heq]; lia.
Qed.

(** ** The older script *)

Lemma legacy_fetch_success_iff r clk engine term logs p :
  Legacy.fetch (Responded r) clk engine term = (logs, Return p) ->
  pr_success p = true <->
  resp_status r = 200 /\
  ~ (exists pre post,
       default "" (resp_content_type r) = pre +:+ "html" +:+ post) /\
  (Legacy.MIN_CONTENT_SIZE_KB <= pr_content_size p)%Q.
Proof.
  unfold Legacy.fetch.
  destruct (Legacy.build_payload engine term) as [url|e'] eqn:Hp.
  - intros [= _ <-]. simpl. unfold Legacy.response_is_success.
    rewrite !andb_true_iff, Z.eqb_eq, negb_true_iff, geb_ge.
    rewrite <- not_true_iff_false, contains_infix. tauto.
  - unfold Legacy.fetch_handler. rewrite Hp. discriminate.
Qed.

(** C1. The [fetch] of the older script searches the Content-Type header
    as it came: a response with status 200, the header
    "text/HTML; charset=utf-8" and a body of 3072 bytes (3 KB, above the
    floor of 2 KB) gets [success] true for every search term and clock,
    although its header holds the HTML marker, which the lowered header
    shows.  [serp_monitor.fetch], which lowers the header first, gives
    [success] false on the same response. *)
Theorem legacy_fetch_accepts_html_header (clk : Clock) (term : string) :
  resp_status example_html_response = 200 /\
  (exists pre post : string,
     lower (default "" (resp_content_type example_html_response)) =
     pre +:+ "html" +:+ post) /\
  (Legacy.MIN_CONTENT_SIZE_KB
   <= Z.of_nat (String.length (resp_text example_html_response)) # 1024)%Q /\
  (exists logs p,
     Legacy.fetch (Responded example_html_response) clk "google" term =
     (logs, Return p) /\ pr_success p = true) /\
  (exists logs p,
     fetch example_cfg (Responded example_html_response) clk "x" term =
     (logs, Return p) /\ pr_success p = false).
Proof.
  split; [reflexivity|]. split.
  { exists "text/", "; charset=utf-8". vm_compute. reflexivity. }
  split; [vm_compute; discriminate|]. split.
  - unfold Legacy.fetch, Legacy.build_payload.
    replace (Legacy.SEARCH_ENGINES !! "google")
      with (Some ("www.google.com", "q")) by (vm_compute; reflexivity).
    eexists _, _. split; [reflexivity|]. vm_compute. reflexivity.
  - unfold fetch, build_payload.
    replace (search_engines example_cfg !! "x")
      with (Some {| ec_domain := Some "www.google.com";
                    ec_param := Some "q";
                    ec_engine := Some "google" |})
      by (vm_compute; reflexivity).
    cbn [ec_domain ec_param ec_engine].
    eexists _, _. split; [reflexivity|]. vm_compute. reflexivity.
Qed.

(** ** Worked cases *)

Example html_header_any_case :
  response_is_success example_cfg example_html_response = false /\
  Legacy.response_is_success example_html_response = true.
Proof. split; vm_compute; reflexivity. Qed.

(** [str(KeyError(k))] is [repr(k)]. *)
Example key_error_text :
  exn_text (KeyError "google") = "'google'" /\
  exn_text (KeyError "it's") =
    String double_quote ("it's" +:+ String double_quote EmptyString) /\
  exn_text (KeyError (String backslash "n")) =
    String "'" (String backslash (String backslash "n'")).
Proof. repeat split; vm_compute; reflexivity. Qed.

Example rate_examples :
  rate 1 5 = (20 # 1)%Q /\ rate 1 3 = (3333 # 100)%Q /\
  rate 2 3 = (6667 # 100)%Q /\ rate 1 32 = (78 # 25)%Q.
Proof. repeat split; vm_compute; reflexivity. Qed.

(** Three cycles at 20% raise the success-rate alert on the third. *)
Example scenario_A :
  monitor_on_batches example_cfg (fun _ => one_in_five) =
  Return [SuccessRateAlert "x" (95 # 1) [20 # 1; 20 # 1; 20 # 1]%Q].
Proof. vm_compute. reflexivity. Qed.

(** A 100% cycle in the middle keeps the alert away on the third cycle. *)
Example scenario_B :
  monitor_on_batches example_cfg
    (fun minute => if (minute =? 1)%nat then five_in_five else one_in_five) =
  Return [].
Proof. vm_compute. reflexivity. Qed.

Example scenario_C :
  check_alerts example_cfg "x" (engine_stats burst_batch)
    (init_status_window example_cfg) = Return [BurstAlert "x"].
Proof. vm_compute. reflexivity. Qed.

Example scenario_D :
  check_alerts example_cfg "x" (engine_stats alternating_batch)
    (init_status_window example_cfg) = Return [].
Proof. vm_compute. reflexivity. Qed.

Example scenario_E :
  monitor_on_batches
    {| search_engines := search_engines example_cfg;
       concurrency := 2; requests_per_engine := 5;
       monitor_duration_minutes := 0;
       threshold_success_rate := 95 # 1;
       threshold_timeout_rate := 10 # 1;
       timeout_limit := 10 # 1;
       min_content_size_kb := 2 # 1 |}
    (fun _ => one_in_five) = Return [].
Proof. reflexivity. Qed.

(** ** The theorems at concrete inputs *)

Lemma fetch_success_iff_witness :
  fetch example_cfg (Responded example_response) example_clock "x" "Soy Milk"
  = ([], Return example_result) /\
  (pr_success example_result = true <->
   resp_status example_response = 200 /\
   ~ (exists pre post,
        lower (default "" (resp_content_type example_response)) =
        pre +:+ "html" +:+ post) /\
   (min_content_size_kb example_cfg
    <= Z.of_nat (String.length (resp_text example_response)) # 1024)%Q) /\
  pr_content_size example_result =
  (Z.of_nat (String.length (resp_text example_response)) # 1024)%Q.
Proof.
  split; [vm_compute; reflexivity|].
  apply (fetch_success_iff example_cfg example_response example_clock
           "x" "Soy Milk" [] example_result).
  vm_compute; reflexivity.
Defined.

Lemma fetch_is_timeout_iff_witness :
  fetch example_cfg (Responded example_response) example_clock "x" "Soy Milk"
  = ([], Return example_result) /\
  (pr_is_timeout example_result = true <->
   (timeout_limit example_cfg < pr_elapsed example_result)%Q).
Proof.
  split; [vm_compute; reflexivity|].
  apply (fetch_is_timeout_iff example_cfg example_response example_clock
           "x" "Soy Milk" [] example_result).
  vm_compute; reflexivity.
Defined.

Lemma fetch_failure_result_witness :
  build_payload example_cfg "x" "Soy Milk" =
  Return {| pl_url := "https://www.google.com/search?q=Soy%20Milk&json=1";
            pl_params := [("engine", "google"); ("q", "Soy Milk");
                          ("json", "1")] |} /\
  snd (fetch example_cfg (Failed example_exn) example_clock "x" "Soy Milk") =
  Return {| pr_engine := "x";
            pr_term := "Soy Milk";
            pr_status := 0;
            pr_elapsed := Qminus (t_done example_clock) (t_start example_clock);
            pr_is_timeout := true;
            pr_success := false;
            pr_exception :=
              Some (exn_type example_exn +:+ ": " +:+ exn_text example_exn);
            pr_content_size := 0%Q;
            pr_timestamp := t_stamp example_clock |}.
Proof.
  split; [vm_compute; reflexivity|].
  eapply (fetch_failure_result example_cfg example_exn example_clock
            "x" "Soy Milk").
  vm_compute; reflexivity.
Defined.

Lemma success_rate_alert_iff_witness :
  ({[ "x" := low_window ]} : gmap string EngineWindow) !! "x" = Some low_window
  /\
  exists alerts,
    check_alerts example_cfg "x" (engine_stats one_in_five)
      {[ "x" := low_window ]} = Return alerts /\
    (existsb is_success_alert alerts = true <->
     length (dq_items (w_success_rate low_window)) = 3%nat /\
     (forall x, In x (dq_items (w_success_rate low_window)) ->
                (x < threshold_success_rate example_cfg)%Q)) /\
    ((exists x, In x (dq_items (w_success_rate low_window)) /\
                (threshold_success_rate example_cfg <= x)%Q) ->
     existsb is_success_alert alerts = false).
Proof.
  split; [vm_compute; reflexivity|].
  apply (success_rate_alert_iff example_cfg "x" (engine_stats one_in_five)
           {[ "x" := low_window ]} low_window).
  vm_compute; reflexivity.
Defined.

Lemma burst_alert_iff_witness :
  ({[ "x" := new_window ]} : gmap string EngineWindow) !! "x" = Some new_window
  /\
  Permutation burst_batch (sorted_by_timestamp burst_batch) /\
  StronglySorted ts_le (sorted_by_timestamp burst_batch) /\
  exists alerts,
    check_alerts example_cfg "x" (engine_stats burst_batch)
      {[ "x" := new_window ]} = Return alerts /\
    (existsb is_burst_alert alerts = true <->
     exists i, burst_at (map pr_status (sorted_by_timestamp burst_batch)) i).
Proof.
  split; [vm_compute; reflexivity|].
  apply (burst_alert_iff example_cfg "x" (engine_stats burst_batch)
           {[ "x" := new_window ]} new_window).
  vm_compute; reflexivity.
Defined.

Lemma burst_alert_needs_three_witness :
  ({[ "x" := new_window ]} : gmap string EngineWindow) !! "x" = Some new_window
  /\ (length (cs_results (engine_stats two_results)) < 3)%nat /\
  exists alerts,
    check_alerts example_cfg "x" (engine_stats two_results)
      {[ "x" := new_window ]} = Return alerts /\
    existsb is_burst_alert alerts = false.
Proof.
  split; [vm_compute; reflexivity|]. split; [simpl; lia|].
  apply (burst_alert_needs_three example_cfg "x" (engine_stats two_results)
           {[ "x" := new_window ]} new_window).
  - vm_compute; reflexivity.
  - simpl; lia.
Defined.

Lemma in_flight_bounded_witness :
  start_cycle example_cfg example_batch =
  Return {| sem_value := 2;
            tasks := [Waiting; Waiting; Waiting; Waiting; Waiting] |} /\
  rtc task_step
    {| sem_value := 2; tasks := [Waiting; Waiting; Waiting; Waiting; Waiting] |}
    two_in_flight /\
  (Z.of_nat (in_flight two_in_flight) <= concurrency example_cfg)%Z.
Proof.
  assert (Hreach :
    rtc task_step
      {| sem_value := 2;
         tasks := [Waiting; Waiting; Waiting; Waiting; Waiting] |}
      two_in_flight).
  { eapply rtc_l.
    { apply (step_acquire
               {| sem_value := 2;
                  tasks := [Waiting; Waiting; Waiting; Waiting; Waiting] |}
               2); [reflexivity | simpl; lia]. }
    eapply rtc_l.
    { apply (step_acquire
               {| sem_value := 1;
                  tasks := [Waiting; Waiting; InFlight; Waiting; Waiting] |}
               0); [reflexivity | simpl; lia]. }
    apply rtc_refl. }
  split; [reflexivity|]. split; [exact Hreach|].
  apply (in_flight_bounded example_cfg example_batch
           {| sem_value := 2;
              tasks := [Waiting; Waiting; Waiting; Waiting; Waiting] |}
           two_in_flight); [reflexivity | exact Hreach].
Defined.

Lemma analyze_results_permutation_witness :
  Permutation two_results (rev two_results) /\
  stats_numbers <$> dict_get "x" (analyze_results two_results) =
  stats_numbers <$> dict_get "x" (analyze_results (rev two_results)).
Proof.
  split; [apply perm_swap|].
  apply (analyze_results_permutation two_results (rev two_results) "x").
  apply perm_swap.
Defined.

(** * Further properties *)

(** ** Percent-encoding of the search term *)



Lemma hex_digit_kept (k : nat) :
  (k < 16)%nat ->
  quote_safe (hex_digit k) = true /\ quote_plus_safe (hex_digit k) = true.
Proof.
  intros Hk. do 16 (destruct k as [|k]; [split; reflexivity|]). lia.
Qed.

Lemma ascii_high_nibble (c : ascii) : (nat_of_ascii c / 16 < 16)%nat.
Proof.
  pose proof (nat_ascii_bounded c).
  apply Nat.Div0.div_lt_upper_bound. lia.
Qed.

Lemma ascii_low_nibble (c : ascii) : (nat_of_ascii c mod 16 < 16)%nat.
Proof. apply Nat.mod_upper_bound. lia. Qed.


Lemma quote_chars (term : string) (c : ascii) :
  In c (chars (quote term)) -> quote_safe c = true \/ c = "%"%char.
Proof.
  induction term as [|a term IH]; simpl; [tauto|].
  destruct (quote_safe a) eqn:Ha; simpl.
  - intros [<-|Hc]; [now left | now apply IH].
  - intros [<-|[<-|[<-|Hc]]]; [now right| | |now apply IH].
    + left. apply hex_digit_kept, ascii_high_nibble.
    + left. apply hex_digit_kept, ascii_low_nibble.
Qed.

Lemma kept_in_url_chars (c : ascii) :
  quote_safe c = true \/ c = "%"%char -> In c (chars url_chars).
Proof.
  intros Hc.
  assert (Hb : existsb (Ascii.eqb c) (chars url_chars) = true).
  { destruct c as [[] [] [] [] [] [] [] []];
      try (vm_compute; reflexivity);
      destruct Hc as [Hc|Hc]; vm_compute in Hc; discriminate Hc. }
  apply existsb_exists in Hb as (x & Hx & Heq).
  apply Ascii.eqb_eq in Heq. now subst x.
Qed.

Lemma hex_value_digit (k : nat) :
  (k < 16)%nat -> hex_value (hex_digit k) = k.
Proof. intros Hk. do 16 (destruct k as [|k]; [reflexivity|]). lia. Qed.

Lemma unquote_kept (c : ascii) (q : string) :
  Ascii.eqb c "%" = false -> unquote (String c q) = String c (unquote q).
Proof.
  intros Hc. destruct q as [|h [|l q]]; cbn [unquote]; rewrite ?Hc; reflexivity.
Qed.

Lemma unquote_escape (h l : ascii) (q : string) :
  unquote (String "%" (String h (String l q))) =
  String (ascii_of_nat (16 * hex_value h + hex_value l)) (unquote q).
Proof. reflexivity. Qed.

Lemma unquote_quote (term : string) : unquote (quote term) = term.
Proof.
  induction term as [|c term IH]; [reflexivity|]. cbn [quote].
  destruct (quote_safe c) eqn:Hc.
  - rewrite unquote_kept, IH; [reflexivity|].
    destruct (Ascii.eqb_spec c "%") as [->|]; [discriminate Hc | reflexivity].
  - cbv zeta. rewrite unquote_escape, IH.
    rewrite !hex_value_digit
      by (apply ascii_high_nibble || apply ascii_low_nibble).
    rewrite <- Nat.div_mod_eq. now rewrite ascii_nat_embedding.
Qed.



(** ** The form fields of the request *)

Lemma count_char_app (c : ascii) (s t : string) :
  count_char c (s +:+ t) = (count_char c s + count_char c t)%nat.
Proof.
  induction s as [|a s IH]; [reflexivity|].
  rewrite append_cons. simpl. rewrite IH. lia.
Qed.

Lemma quote_plus_no_separator (c : ascii) (s : string) :
  quote_plus_safe c = false -> c <> "+"%char -> c <> "%"%char ->
  count_char c (quote_plus s) = O.
Proof.
  intros Hc Hplus Hpct.
  assert (Hkept : forall a, quote_plus_safe a = true -> Ascii.eqb a c = false).
  { intros a Ha. apply Ascii.eqb_neq. congruence. }
  induction s as [|a s IH]; [reflexivity|]. cbn [quote_plus].
  destruct (Ascii.eqb a " "); [|destruct (quote_plus_safe a) eqn:Ha];
    cbn [count_char]; rewrite IH.
  - destruct (Ascii.eqb_spec "+" c); [congruence | reflexivity].
  - now rewrite (Hkept a Ha).
  - rewrite (Hkept (hex_digit (nat_of_ascii a / 16)))
      by apply hex_digit_kept, ascii_high_nibble.
    rewrite (Hkept (hex_digit (nat_of_ascii a mod 16)))
      by apply hex_digit_kept, ascii_low_nibble.
    destruct (Ascii.eqb_spec "%" c); [congruence | reflexivity].
Qed.

Lemma count_char_join (c : ascii) (sep : string) (parts : list string) :
  parts <> [] ->
  count_char c (join sep parts) =
  (list_sum (map (count_char c) parts)
   + (length parts - 1) * count_char c sep)%nat.
Proof.
  induction parts as [|x [|y rest] IH]; intros Hne.
  - congruence.
  - simpl. lia.
  - change (join sep (x :: y :: rest))
      with (x +:+ sep +:+ join sep (y :: rest)).
    rewrite !count_char_app, IH by discriminate. simpl. lia.
Qed.

Lemma urlencode_separators (query : list (string * string)) :
  query <> [] ->
  count_char "&" (urlencode query) = (length query - 1)%nat /\
  count_char "=" (urlencode query) = length query.
Proof.
  intros Hne. unfold urlencode.
  rewrite !count_char_join by (destruct query; [congruence | discriminate]).
  rewrite length_map. simpl count_char.
  assert (Hf : forall c, c = "&"%char \/ c = "="%char ->
             list_sum
               (map (count_char c)
                  (map (fun kv => quote_plus (fst kv) +:+ "=" +:+
                                  quote_plus (snd kv)) query)) =
             (length query * count_char c "=")%nat).
  { intros c Hc. clear Hne.
    induction query as [|kv query IH]; [reflexivity|].
    cbn [map length]. change (list_sum (?x :: ?l)) with (x + list_sum l)%nat.
    rewrite IH, !count_char_app.
    rewrite !quote_plus_no_separator by (destruct Hc; subst; easy).
    lia. }
  rewrite !Hf by tauto. simpl. lia.
Qed.

Lemma build_payload_params cfg engine term payload :
  build_payload cfg engine term = Return payload ->
  exists engine_config domain param,
    search_engines cfg !! engine = Some engine_config /\
    ec_domain engine_config = Some domain /\
    ec_param engine_config = Some param /\
    pl_url payload =
      "https://" +:+ domain +:+ "/search?" +:+ param +:+ "="
        +:+ quote term +:+ "&json=1" /\
    pl_params payload =
      dict_set "json" "1"
        (dict_set param term
           (dict_set "engine" (default engine (ec_engine engine_config)) [])).
Proof.
  unfold build_payload.
  destruct (search_engines cfg !! engine) as [ec|]; [|discriminate].
  destruct (ec_domain ec) as [domain|] eqn:Hd; [|discriminate].
  destruct (ec_param ec) as [param|] eqn:Hp; [|discriminate].
  intros [= <-]. now exists ec, domain, param.
Qed.

(** X1. The URL that [build_payload] returns is "https://", the domain,
    "/search?", the parameter name, "=", the quoted term and "&json=1".  The
    quoted term holds only letters, digits, [_.-~/] and percent signs, so no
    space, [&], [=], [?] or [#] of the term reaches the URL, and
    percent-decoding it gives the term back. *)
Theorem build_payload_url cfg engine term payload :
  build_payload cfg engine term = Return payload ->
  exists engine_config domain param quoted,
    search_engines cfg !! engine = Some engine_config /\
    ec_domain engine_config = Some domain /\
    ec_param engine_config = Some param /\
    pl_url payload =
      "https://" +:+ domain +:+ "/search?" +:+ param +:+ "="
        +:+ quoted +:+ "&json=1" /\
    (forall c, In c (chars quoted) -> In c (chars url_chars)) /\
    unquote quoted = term.
Proof.
  intros Hp.
  destruct (build_payload_params _ _ _ _ Hp)
    as (ec & domain & param & He & Hd & Hparam & Hurl & _).
  exists ec, domain, param, (quote term).
  repeat (split; [assumption|]). split.
  - intros c Hc. now apply kept_in_url_chars, quote_chars with term.
  - apply unquote_quote.
Qed.

(** X3. The dict literal of [build_payload] keeps one value per key: an
    engine whose query parameter is named "json" loses the search term, one
    whose parameter is named "engine" loses the API engine name, and every
    other engine sends the three fields in order. *)
Theorem build_payload_fields cfg engine term payload :
  build_payload cfg engine term = Return payload ->
  exists engine_config param,
    search_engines cfg !! engine = Some engine_config /\
    ec_param engine_config = Some param /\
    let api_engine := default engine (ec_engine engine_config) in
    pl_params payload =
      if String.eqb param "json" then [("engine", api_engine); ("json", "1")]
      else if String.eqb param "engine" then [("engine", term); ("json", "1")]
      else [("engine", api_engine); (param, term); ("json", "1")].
Proof.
  intros Hp.
  destruct (build_payload_params _ _ _ _ Hp)
    as (ec & domain & param & He & _ & Hparam & _ & Hps).
  exists ec, param. split; [exact He|]. split; [exact Hparam|].
  cbv zeta. rewrite Hps. cbn [dict_set].
  destruct (String.eqb_spec param "engine") as [->|Hne]; [reflexivity|].
  destruct (String.eqb_spec param "json") as [->|Hnj]; [reflexivity|].
  cbn [dict_set]. change (String.eqb "json" "engine") with false.
  cbn [dict_set].
  now destruct (String.eqb_spec "json" param) as [<-|_].
Qed.

Lemma build_payload_fields_witness :
  build_payload example_cfg "x" "Soy Milk" =
  Return {| pl_url := "https://www.google.com/search?q=Soy%20Milk&json=1";
            pl_params := [("engine", "google"); ("q", "Soy Milk");
                          ("json", "1")] |} /\
  exists engine_config param,
    search_engines example_cfg !! "x" = Some engine_config /\
    ec_param engine_config = Some param /\
    let api_engine := default "x" (ec_engine engine_config) in
    [("engine", "google"); ("q", "Soy Milk"); ("json", "1")] =
      if String.eqb param "json" then [("engine", api_engine); ("json", "1")]
      else if String.eqb param "engine"
           then [("engine", "Soy Milk"); ("json", "1")]
           else [("engine", api_engine); (param, "Soy Milk"); ("json", "1")].
Proof.
  split; [vm_compute; reflexivity|].
  apply (build_payload_fields example_cfg "x" "Soy Milk"
           {| pl_url := "https://www.google.com/search?q=Soy%20Milk&json=1";
              pl_params := [("engine", "google"); ("q", "Soy Milk");
                            ("json", "1")] |}).
  vm_compute; reflexivity.
Defined.

(** X4. Whatever the term holds, the urlencoded body of a probe has two or
    three fields, one [=] per field and one [&] between fields: a term
    cannot add or split form fields. *)
Theorem request_body_fields cfg engine term payload :
  build_payload cfg engine term = Return payload ->
  exists body,
    request_body cfg engine term = Return body /\
    (2 <= length (pl_params payload) <= 3)%nat /\
    count_char "=" body = length (pl_params payload) /\
    count_char "&" body = (length (pl_params payload) - 1)%nat.
Proof.
  intros Hp. unfold request_body. rewrite Hp.
  eexists. split; [reflexivity|].
  assert (Hlen : (2 <= length (pl_params payload) <= 3)%nat).
  { destruct (build_payload_params _ _ _ _ Hp)
      as (ec & domain & param & _ & _ & _ & _ & ->).
    cbn [dict_set].
    destruct (String.eqb param "engine"); cbn [dict_set];
      [simpl; lia|].
    destruct (String.eqb "json" "engine"); cbn [dict_set]; [simpl; lia|].
    destruct (String.eqb "json" param); simpl; lia. }
  split; [exact Hlen|].
  destruct (urlencode_separators (pl_params payload)) as [Hamp Heq].
  { intros E. rewrite E in Hlen. simpl in Hlen. lia. }
  split; assumption.
Qed.

Lemma request_body_fields_witness :
  build_payload example_cfg "x" "a&b=c d" =
  Return {| pl_url := "https://www.google.com/search?q=a%26b%3Dc%20d&json=1";
            pl_params := [("engine", "google"); ("q", "a&b=c d");
                          ("json", "1")] |} /\
  exists body,
    request_body example_cfg "x" "a&b=c d" = Return body /\
    (2 <= 3 <= 3)%nat /\
    count_char "=" body = 3%nat /\ count_char "&" body = 2%nat.
Proof.
  split; [vm_compute; reflexivity|].
  apply (request_body_fields example_cfg "x" "a&b=c d"
           {| pl_url :=
                "https://www.google.com/search?q=a%26b%3Dc%20d&json=1";
              pl_params := [("engine", "google"); ("q", "a&b=c d");
                            ("json", "1")] |}).
  vm_compute; reflexivity.
Defined.

Lemma build_payload_raises_iff cfg engine term :
  (exists e, build_payload cfg engine term = Raise e) <->
  (search_engines cfg !! engine = None \/
   exists engine_config,
     search_engines cfg !! engine = Some engine_config /\
     (ec_domain engine_config = None \/ ec_param engine_config = None)).
Proof.
  unfold build_payload. split.
  - intros [e He].
    destruct (search_engines cfg !! engine) as [ec|]; [|now left].
    right. exists ec. split; [reflexivity|].
    destruct (ec_domain ec); [|now left].
    destruct (ec_param ec); [discriminate | now right].
  - intros [->|(ec & -> & [Hd|Hpm])].
    + eauto.
    + rewrite Hd. eauto.
    + destruct (ec_domain ec); rewrite ?Hpm; eauto.
Qed.

(** X5. For a search term given by its UTF-8 bytes, [fetch] lets an
    exception out in two cases only, and always then: the engine is not
    configured or its entry lacks "domain" or "param" (the [except] block
    calls [build_payload] again, which raises its [KeyError] again), or an
    await of the network call is left by a [BaseException] that
    [except Exception] does not catch, such as [asyncio.CancelledError].
    The exception that leaves [fetch] is that [KeyError] or that
    [BaseException].  (A term with a lone surrogate, on which [quote] itself
    raises, has no UTF-8 bytes and is outside the statement.) *)
Theorem fetch_raises_iff cfg net clk engine term :
  ((exists e, snd (fetch cfg net clk engine term) = Raise e) <->
   (search_engines cfg !! engine = None \/
    exists engine_config,
      search_engines cfg !! engine = Some engine_config /\
      (ec_domain engine_config = None \/ ec_param engine_config = None)) \/
   (exists e, net = Aborted e)) /\
  (forall e, snd (fetch cfg net clk engine term) = Raise e ->
             build_payload cfg engine term = Raise e \/ net = Aborted e).
Proof.
  rewrite <- (build_payload_raises_iff cfg engine term).
  destruct (build_payload cfg engine term) as [payload|e'] eqn:Hp.
  - destruct net as [r|e0|e0].
    + destruct (fetch_returns cfg (Responded r) clk engine term payload Hp)
        as (logs & p & Hf); [discriminate|]. rewrite Hf. simpl. split.
      * split; [intros [e He]; discriminate|].
        intros [[e He]|[e He]]; discriminate He.
      * discriminate.
    + destruct (fetch_returns cfg (Failed e0) clk engine term payload Hp)
        as (logs & p & Hf); [discriminate|]. rewrite Hf. simpl. split.
      * split; [intros [e He]; discriminate|].
        intros [[e He]|[e He]]; discriminate He.
      * discriminate.
    + rewrite (fetch_aborted _ _ _ _ _ _ Hp). simpl. split.
      * split; [intros _; right; eauto | eauto].
      * intros e [= ->]. now right.
  - rewrite (fetch_propagates_payload_error _ _ _ _ _ _ Hp). simpl. split.
    + split; eauto.
    + intros e [= ->]. now left.
Qed.

(** ** Per-engine statistics *)

Lemma rate_unfold c t' :
  rate c (S t') =
  Qred (round_half_even (Z.of_nat c * 10000) (Pos.of_succ_nat t') # 100).
Proof.
  unfold rate, round2. f_equal. unfold Qdiv, Qmult, Qinv, inject_Z.
  cbn [Qnum Qden].
  change (Z.of_nat (S t')) with (Zpos (Pos.of_succ_nat t')).
  cbn [Qnum Qden]. rewrite !Pos.mul_1_r, Pos.mul_1_l.
  f_equal. f_equal. lia.
Qed.

Lemma round_half_even_near (n : Z) (d : positive) :
  (- Zpos d <= 2 * (round_half_even n d * Zpos d - n) <= Zpos d)%Z.
Proof.
  unfold round_half_even.
  pose proof (Z.div_mod n (Zpos d) ltac:(lia)) as Hn.
  pose proof (Z.mod_pos_bound n (Zpos d) ltac:(lia)) as Hr.
  set (q := (n / Zpos d)%Z) in *. set (r := (n mod Zpos d)%Z) in *.
  destruct (Z.compare_spec (2 * r) (Zpos d)); [destruct (Z.even q)| |]; nia.
Qed.

Lemma round_half_even_bounds (n lo hi : Z) (d : positive) :
  (lo * Zpos d <= n <= hi * Zpos d)%Z ->
  (lo <= round_half_even n d <= hi)%Z.
Proof.
  intros Hn. pose proof (round_half_even_near n d). nia.
Qed.

Lemma count_if_le {A} (p : A -> bool) (l : list A) :
  (count_if p l <= length l)%nat.
Proof. induction l as [|x l IH]; simpl; [lia|]. destruct (p x); lia. Qed.

Lemma count_if_disjoint {A} (p q : A -> bool) (l : list A) :
  (forall x, p x = true -> q x = false) ->
  (count_if p l + count_if q l <= length l)%nat.
Proof.
  intros Hpq. induction l as [|x l IH]; simpl; [lia|].
  specialize (Hpq x). destruct (p x), (q x); try lia;
    now specialize (Hpq eq_refl).
Qed.

Lemma count_if_all {A} (p : A -> bool) (l : list A) :
  (forall x, In x l -> p x = true) -> count_if p l = length l.
Proof.
  induction l as [|x l IH]; intros Hp; simpl; [reflexivity|].
  rewrite (Hp x) by now left. rewrite IH; [lia|].
  intros y Hy. apply Hp. now right.
Qed.

Lemma count_if_zero {A} (p : A -> bool) (l : list A) :
  (forall x, In x l -> p x = false) -> count_if p l = O.
Proof.
  induction l as [|x l IH]; intros Hp; simpl; [reflexivity|].
  rewrite (Hp x) by now left. rewrite IH; [lia|].
  intros y Hy. apply Hp. now right.
Qed.

Lemma analysis_entry engine results stats :
  dict_get engine (analyze_results results) = Some stats ->
  stats = engine_stats (List.filter (of_engine engine) results) /\
  List.filter (of_engine engine) results <> [].
Proof.
  rewrite analyze_results_get.
  destruct (List.filter (of_engine engine) results); [discriminate|].
  intros [= <-]. split; [reflexivity | discriminate].
Qed.

(** X6. The entry of an engine in the analysis is computed from that
    engine's results alone: it retains exactly the results of the batch that
    carry the engine's name, in batch order, and its total is their number. *)
Theorem analysis_entry_results engine results stats :
  dict_get engine (analyze_results results) = Some stats ->
  cs_results stats = List.filter (of_engine engine) results /\
  cs_total stats = length (cs_results stats) /\
  (forall r, In r (cs_results stats) -> In r results /\ pr_engine r = engine).
Proof.
  intros Hs. apply analysis_entry in Hs as [-> _]. simpl.
  split; [reflexivity|]. split; [reflexivity|].
  intros r Hr. apply filter_In in Hr as [Hr He]. split; [exact Hr|].
  now apply String.eqb_eq.
Qed.

(** X7. In every entry of the analysis the total is positive, the success
    and timeout counts are at most the total, and the 5xx and status-0
    counts together are at most the total. *)
Theorem analysis_counts_bounded engine results stats :
  dict_get engine (analyze_results results) = Some stats ->
  (0 < cs_total stats)%nat /\
  (cs_success stats <= cs_total stats)%nat /\
  (cs_timeout stats <= cs_total stats)%nat /\
  (cs_exceptions stats + cs_errors stats <= cs_total stats)%nat.
Proof.
  intros Hs. apply analysis_entry in Hs as [-> Hne]. simpl.
  split.
  { destruct (List.filter (of_engine engine) results);
      [congruence | simpl; lia]. }
  split; [apply count_if_le|]. split; [apply count_if_le|].
  apply count_if_disjoint. intros r Hr.
  apply is_5xx_In in Hr. simpl in Hr. apply Z.eqb_neq. lia.
Qed.

Lemma dict_set_fresh {V} (k : string) (v : V) (d : list (string * V)) :
  dict_get k d = None -> dict_set k v d = d ++ [(k, v)].
Proof.
  induction d as [|[k0 v0] d IH]; simpl; [reflexivity|].
  destruct (String.eqb k k0); [discriminate|]. intros Hk. now rewrite IH.
Qed.

Lemma dict_set_values {V} (P : V -> Prop) (k : string) (v : V)
    (d : list (string * V)) :
  Forall (fun kv => P (snd kv)) d -> P v ->
  Forall (fun kv => P (snd kv)) (dict_set k v d).
Proof.
  intros Hd Hv. induction Hd as [|[k0 v0] d H0 Hd IH]; simpl.
  - repeat constructor. exact Hv.
  - destruct (String.eqb k k0); constructor; auto.
Qed.

Lemma sum_groups_cons kv grouped :
  sum_groups (kv :: grouped) = (length (snd kv) + sum_groups grouped)%nat.
Proof. reflexivity. Qed.

Lemma grouped_append_sum r grouped :
  sum_groups (grouped_append r grouped) = S (sum_groups grouped).
Proof.
  unfold grouped_append.
  induction grouped as [|[k g] grouped IH]; [reflexivity|].
  cbn [dict_get dict_set].
  destruct (String.eqb (pr_engine r) k); rewrite !sum_groups_cons.
  - cbn [snd default]. rewrite length_app. simpl. lia.
  - rewrite IH. lia.
Qed.

Lemma group_by_engine_sum results :
  sum_groups (group_by_engine results) = length results.
Proof.
  unfold group_by_engine.
  enough (H : forall grouped,
             sum_groups (fold_left (fun g r => grouped_append r g)
                           results grouped) =
             (sum_groups grouped + length results)%nat) by apply (H []).
  induction results as [|r results IH]; intros grouped; simpl; [lia|].
  rewrite IH, grouped_append_sum. lia.
Qed.

Lemma group_by_engine_nonempty results :
  Forall (fun kv => snd kv <> []) (group_by_engine results).
Proof.
  unfold group_by_engine.
  enough (H : forall grouped : list (string * list ProbeResult),
             Forall (fun kv => snd kv <> []) grouped ->
             Forall (fun kv => snd kv <> [])
               (fold_left (fun g r => grouped_append r g) results grouped))
    by (apply H; constructor).
  induction results as [|r results IH]; intros grouped Hg; simpl; [exact Hg|].
  apply IH. unfold grouped_append.
  apply (dict_set_values (fun g => g <> [])); [exact Hg|].
  now destruct (default [] (dict_get (pr_engine r) grouped)).
Qed.

Lemma keys_app {V} (d d' : list (string * V)) :
  keys (d ++ d') = keys d ++ keys d'.
Proof. apply map_app. Qed.

Lemma fold_analysis_step_map grouped analysis :
  NoDup (keys analysis ++ keys grouped) ->
  Forall (fun kv => snd kv <> []) grouped ->
  fold_left analysis_step grouped analysis =
  analysis ++ map (fun kv => (fst kv, engine_stats (snd kv))) grouped.
Proof.
  revert analysis.
  induction grouped as [|[k g] grouped IH]; intros analysis Hnd Hne.
  - simpl. now rewrite app_nil_r.
  - apply Forall_cons in Hne as [Hg Hne]. cbn [fold_left analysis_step].
    destruct g as [|r g]; [now contradiction Hg|].
    cbn [length Nat.eqb].
    assert (Hfresh : dict_get k analysis = None).
    { destruct (dict_get k analysis) eqn:E; [|reflexivity]. exfalso.
      apply NoDup_app in Hnd as (_ & Hdis & _).
      apply (Hdis k).
      - apply list_elem_of_In, dict_get_keys. congruence.
      - apply list_elem_of_In. now left. }
    rewrite (dict_set_fresh _ _ _ Hfresh), IH.
    + rewrite <- app_assoc. reflexivity.
    + rewrite keys_app. rewrite <- app_assoc. exact Hnd.
    + exact Hne.
Qed.

(** The analysis has one entry per group, in the order of the groups. *)
Lemma analyze_results_map results :
  analyze_results results =
  map (fun kv => (fst kv, engine_stats (snd kv))) (group_by_engine results).
Proof.
  unfold analyze_results.
  apply (fold_analysis_step_map (group_by_engine results) []).
  - apply group_by_engine_NoDup.
  - apply group_by_engine_nonempty.
Qed.

(** X9. The totals of the entries of the analysis add up to the size of
    the batch: every result is counted for exactly one engine. *)
Theorem analysis_totals_add_up (results : list ProbeResult) :
  sum_totals (analyze_results results) = length results.
Proof.
  rewrite analyze_results_map. unfold sum_totals.
  rewrite map_map. simpl. apply group_by_engine_sum.
Qed.



Lemma failed_probe_fields r :
  failed_probe r ->
  pr_status r = 0 /\ pr_is_timeout r = true /\ pr_success r = false.
Proof.
  intros (cfg & e & clk & engine & term & Hf). revert Hf.
  unfold fetch, fetch_handler.
  destruct (build_payload cfg engine term); simpl.
  - intros [= <-]. auto.
  - discriminate.
Qed.

Lemma rate_none t : (0 < t)%nat -> rate 0 t = (0 # 1)%Q.
Proof.
  intros Ht. destruct t as [|t']; [lia|]. rewrite rate_unfold.
  destruct (round_half_even_bounds (Z.of_nat 0 * 10000) 0 0
              (Pos.of_succ_nat t')) as [Hlo Hhi]; [lia|].
  now replace (round_half_even _ _) with 0 by lia.
Qed.

Lemma rate_all t : (0 < t)%nat -> rate t t = (100 # 1)%Q.
Proof.
  intros Ht. destruct t as [|t']; [lia|]. rewrite rate_unfold.
  destruct (round_half_even_bounds (Z.of_nat (S t') * 10000) 10000 10000
              (Pos.of_succ_nat t')) as [Hlo Hhi]; [lia|].
  now replace (round_half_even _ _) with 10000 by lia.
Qed.

(** X11. A group made only of probes whose network call raised is
    reported with success rate 0, timeout rate 100, exception rate 0 and
    error rate 100: every failed call counts as a timeout and as an error. *)
Theorem failed_batch_statistics (group : list ProbeResult) :
  group <> [] ->
  (forall r, In r group -> failed_probe r) ->
  stats_numbers (engine_stats group) =
  ((length group, 0%nat, length group, 0%nat, length group),
   (0 # 1, 100 # 1, 0 # 1, 100 # 1)%Q).
Proof.
  intros Hne Hfail.
  assert (Hpos : (0 < length group)%nat)
    by (destruct group; [congruence | simpl; lia]).
  unfold stats_numbers, engine_stats. cbn [cs_total cs_success cs_timeout
    cs_exceptions cs_errors cs_success_rate cs_timeout_rate cs_exception_rate
    cs_error_rate].
  rewrite (count_if_zero pr_success), (count_if_all pr_is_timeout),
    (count_if_zero (fun r => is_5xx (pr_status r))),
    (count_if_all (fun r => (pr_status r =? 0)%Z)).
  - now rewrite rate_none, rate_all.
  - intros r Hr. now destruct (failed_probe_fields r (Hfail r Hr)) as (-> & _).
  - intros r Hr. now destruct (failed_probe_fields r (Hfail r Hr)) as (-> & _).
  - intros r Hr.
    now destruct (failed_probe_fields r (Hfail r Hr)) as (_ & ? & _).
  - intros r Hr.
    now destruct (failed_probe_fields r (Hfail r Hr)) as (_ & _ & ?).
Qed.
(** ** More on the alert rules *)

Lemma In_skipn {A} (k : nat) (l : list A) (x : A) :
  In x (skipn k l) -> In x l.
Proof.
  intros Hx. rewrite <- (firstn_skipn k l). apply in_or_app. now right.
Qed.

Lemma In_skipn_le {A} (k k' : nat) (l : list A) (x : A) :
  (k <= k')%nat -> In x (skipn k' l) -> In x (skipn k l).
Proof.
  intros Hk Hx. replace k' with ((k' - k) + k)%nat in Hx by lia.
  rewrite <- skipn_skipn in Hx. now apply In_skipn in Hx.
Qed.

Lemma In_last_n_le {A} (n n' : nat) (l : list A) (x : A) :
  (n <= n')%nat -> In x (last_n n l) -> In x (last_n n' l).
Proof. intros Hn. unfold last_n. apply In_skipn_le. lia. Qed.

Lemma last_n_suffix {A} (n : nat) (l l' : list A) :
  (length l' <= n)%nat -> exists pre, last_n n (l ++ l') = pre ++ l'.
Proof.
  intros Hl. unfold last_n. rewrite skipn_app, length_app.
  replace (length l + length l' - n - length l)%nat with O by lia.
  now exists (skipn (length l + length l' - n) l).
Qed.

Lemma window_after_success_items history :
  dq_items (w_success_rate (window_after history)) =
  last_n 3 (map cs_success_rate history).
Proof. now destruct (window_after_shape history) as ((_ & ->) & _). Qed.

Lemma window_after_timeout_items history :
  dq_items (w_timeout_rate (window_after history)) =
  last_n 3 (map cs_timeout_rate history).
Proof. now destruct (window_after_shape history) as (_ & (_ & ->) & _). Qed.

(** X12. The timeout-rate rule mirrors the success-rate rule: the alert is
    sent exactly when the timeout-rate buffer has 3 entries, all strictly
    above [threshold_timeout_rate]. *)
Theorem timeout_rate_alert_rule cfg engine stats
    (status_window : gmap string EngineWindow) s :
  status_window !! engine = Some s ->
  exists alerts,
    check_alerts cfg engine stats status_window = Return alerts /\
    (existsb is_timeout_alert alerts = true <->
     length (dq_items (w_timeout_rate s)) = 3%nat /\
     (forall x, In x (dq_items (w_timeout_rate s)) ->
                (threshold_timeout_rate cfg < x)%Q)).
Proof.
  intros Hs.
  destruct (check_alerts_returns cfg engine stats _ _ Hs) as (found & _ & Hr).
  eexists. split; [exact Hr|].
  now apply (timeout_rate_alert_iff cfg engine stats status_window s).
Qed.

(** X13. The calls of one [check_alerts] come in the order success rate,
    timeout rate, burst, at most one of each; a rate alert names the engine,
    the configured threshold and the 3 values of the buffer, oldest first. *)
Theorem check_alerts_calls cfg engine stats
    (status_window : gmap string EngineWindow) s alerts :
  status_window !! engine = Some s ->
  check_alerts cfg engine stats status_window = Return alerts ->
  alerts = List.filter is_success_alert alerts
           ++ List.filter is_timeout_alert alerts
           ++ List.filter is_burst_alert alerts /\
  (forall a, In a alerts ->
     (a = SuccessRateAlert engine (threshold_success_rate cfg)
            (dq_items (w_success_rate s)) /\
      length (dq_items (w_success_rate s)) = 3%nat) \/
     (a = TimeoutRateAlert engine (threshold_timeout_rate cfg)
            (dq_items (w_timeout_rate s)) /\
      length (dq_items (w_timeout_rate s)) = 3%nat) \/
     a = BurstAlert engine) /\
  (length (List.filter is_success_alert alerts) <= 1)%nat /\
  (length (List.filter is_timeout_alert alerts) <= 1)%nat /\
  (length (List.filter is_burst_alert alerts) <= 1)%nat.
Proof.
  intros Hs Hc.
  destruct (check_alerts_returns cfg engine stats _ _ Hs) as (found & _ & Hr).
  rewrite Hr in Hc. injection Hc as <-.
  destruct (three_and_all (fun x => ltb x (threshold_success_rate cfg))
              (w_success_rate s)) eqn:H1;
    destruct (three_and_all (fun x => gtb x (threshold_timeout_rate cfg))
                (w_timeout_rate s)) eqn:H2;
    destruct found; cbn [app List.filter is_success_alert is_timeout_alert
                          is_burst_alert length];
    (split; [reflexivity|]); (split; [|repeat split; try lia]).
  all: try apply three_and_all_iff in H1 as [H1 _].
  all: try apply three_and_all_iff in H2 as [H2 _].
  all: intros a Ha; simpl in Ha; intuition (subst; auto).
Qed.

(** X14. During the first two cycles of an engine neither rate alert can be
    sent, whatever the rates are. *)
Theorem no_rate_alert_before_third_cycle cfg engine stats history
    (status_window : gmap string EngineWindow) :
  (length history < 3)%nat ->
  status_window !! engine = Some (window_after history) ->
  exists alerts,
    check_alerts cfg engine stats status_window = Return alerts /\
    existsb is_success_alert alerts = false /\
    existsb is_timeout_alert alerts = false.
Proof.
  intros Hlen Hs.
  destruct (check_alerts_returns cfg engine stats _ _ Hs) as (found & _ & Hr).
  eexists. split; [exact Hr|].
  rewrite (check_alerts_success _ _ _ _ _ _ Hs Hr).
  rewrite (check_alerts_timeout _ _ _ _ _ _ Hs Hr).
  unfold three_and_all.
  rewrite window_after_success_items, window_after_timeout_items.
  rewrite !last_n_length, !length_map.
  replace (Nat.min 3 (length history) =? 3)%nat with false; [tauto|].
  symmetry. apply Nat.eqb_neq. lia.
Qed.

(** X15. Alerts are not held back after they were sent: when the
    success-rate alert is sent in one cycle and the next cycle of the engine
    is again below the threshold, the alert is sent again. *)
Theorem success_alert_repeats cfg engine stats next history
    (status_window status_window' : gmap string EngineWindow) alerts :
  status_window !! engine = Some (window_after history) ->
  check_alerts cfg engine stats status_window = Return alerts ->
  existsb is_success_alert alerts = true ->
  (cs_success_rate next < threshold_success_rate cfg)%Q ->
  status_window' !! engine = Some (window_after (history ++ [next])) ->
  exists alerts',
    check_alerts cfg engine next status_window' = Return alerts' /\
    existsb is_success_alert alerts' = true.
Proof.
  intros Hs Hc Hfired Hnext Hs'.
  rewrite (check_alerts_success _ _ _ _ _ _ Hs Hc) in Hfired.
  apply three_and_all_iff in Hfired as [Hlen Hall].
  rewrite window_after_success_items in Hlen, Hall.
  destruct (check_alerts_returns cfg engine next _ _ Hs') as (found & _ & Hr).
  eexists. split; [exact Hr|].
  rewrite (check_alerts_success _ _ _ _ _ _ Hs' Hr).
  apply three_and_all_iff. rewrite window_after_success_items.
  rewrite map_app. simpl map. rewrite last_n_length in Hlen.
  split.
  - rewrite last_n_length, length_app. cbn [length]. lia.
  - intros x Hx. rewrite last_n_snoc in Hx.
    apply in_app_or in Hx as [Hx|[<-|[]]].
    + apply Hall. apply (In_last_n_le 2 3); [lia | exact Hx].
    + now apply ltb_lt.
Qed.

(** X16. One cycle at or above the threshold keeps the success-rate alert
    away in that cycle and in the next two cycles of the engine, whatever
    their rates are. *)
Theorem good_cycle_suppresses_alert cfg engine stats history good later
    (status_window : gmap string EngineWindow) :
  (threshold_success_rate cfg <= cs_success_rate good)%Q ->
  (length later <= 2)%nat ->
  status_window !! engine = Some (window_after (history ++ good :: later)) ->
  exists alerts,
    check_alerts cfg engine stats status_window = Return alerts /\
    existsb is_success_alert alerts = false.
Proof.
  intros Hgood Hlen Hs.
  destruct (check_alerts_returns cfg engine stats _ _ Hs) as (found & _ & Hr).
  eexists. split; [exact Hr|].
  rewrite (check_alerts_success _ _ _ _ _ _ Hs Hr).
  apply not_true_iff_false. intros Hfire.
  apply three_and_all_iff in Hfire as [_ Hall].
  rewrite window_after_success_items, map_app in Hall.
  destruct (last_n_suffix 3 (map cs_success_rate history)
              (map cs_success_rate (good :: later))) as [pre Hpre].
  { rewrite length_map. simpl. lia. }
  rewrite Hpre in Hall.
  specialize (Hall (cs_success_rate good)).
  apply ltb_lt in Hall; [|apply in_or_app; right; now left].
  now apply Qlt_not_le in Hall.
Qed.

(** ** The order of the burst scan *)

Lemma sorted_permutation_unique (l l' : list ProbeResult) :
  Permutation l l' ->
  StronglySorted ts_le l -> StronglySorted ts_le l' ->
  (forall a b, In a l -> In b l ->
               (pr_timestamp a == pr_timestamp b)%Q -> a = b) ->
  l = l'.
Proof.
  revert l'. induction l as [|x l IH]; intros l' Hp Hs Hs' Hdistinct.
  - now apply Permutation_nil in Hp.
  - destruct l' as [|y l'].
    { symmetry in Hp. now apply Permutation_nil_cons in Hp. }
    apply StronglySorted_inv in Hs as [Hs Hx].
    apply StronglySorted_inv in Hs' as [Hs' Hy].
    rewrite List.Forall_forall in Hx, Hy.
    assert (Hyl : In y (x :: l)).
    { apply (Permutation_in y (Permutation_sym Hp)). now left. }
    assert (Hxl : In x (y :: l')).
    { apply (Permutation_in x Hp). now left. }
    assert (Hxy : x = y).
    { apply Hdistinct; [now left | exact Hyl |].
      apply Qle_antisym.
      - destruct Hyl as [<-|Hyl]; [apply Qle_refl | now apply Hx].
      - destruct Hxl as [<-|Hxl]; [apply Qle_refl | now apply Hy]. }
    subst y. f_equal. apply Permutation_cons_inv in Hp.
    apply IH; auto. intros a b Ha Hb. apply Hdistinct; now right.
Qed.

(** X17. When no two results of a cycle share a timestamp, the burst rule
    does not depend on the order in which [asyncio.gather] returned them:
    every reordering of the batch is scanned in the same order. *)
Theorem burst_rule_order_independent (results results' : list ProbeResult) :
  Permutation results results' ->
  (forall a b, In a results -> In b results ->
               (pr_timestamp a == pr_timestamp b)%Q -> a = b) ->
  sorted_by_timestamp results = sorted_by_timestamp results' /\
  found_3_in_row results = found_3_in_row results'.
Proof.
  intros Hp Hdistinct.
  assert (Hs : sorted_by_timestamp results = sorted_by_timestamp results').
  { apply sorted_permutation_unique.
    - rewrite <- (sorted_by_timestamp_perm results).
      now rewrite <- (sorted_by_timestamp_perm results').
    - apply sorted_by_timestamp_sorted.
    - apply sorted_by_timestamp_sorted.
    - intros a b Ha Hb. apply Hdistinct.
      + now apply (Permutation_in a
                     (Permutation_sym (sorted_by_timestamp_perm results))).
      + now apply (Permutation_in b
                     (Permutation_sym (sorted_by_timestamp_perm results))). }
  split; [exact Hs|]. unfold found_3_in_row. now rewrite Hs.
Qed.

(** ** The loop of [monitor] on results of [fetch] *)










(** ** Progress of the tasks of a cycle *)

Lemma count_if_lookup {A} (p : A -> bool) (l : list A) :
  (0 < count_if p l)%nat -> exists i x, l !! i = Some x /\ p x = true.
Proof.
  induction l as [|x l IH]; simpl; [lia|].
  destruct (p x) eqn:Hx.
  - intros _. now exists O, x.
  - intros Hl. destruct (IH Hl) as (i & y & Hi & Hy). now exists (S i), y.
Qed.

Lemma task_step_length st st' :
  task_step st st' -> length (tasks st') = length (tasks st).
Proof. intros [? ? ? ?|? ? ? ?]; apply length_insert. Qed.

(** X20. With a positive cap a cycle cannot get stuck: in every reachable
    state in which some task has not finished, some task can take the
    semaphore or some task in flight can finish and release it. *)
Theorem unfinished_cycle_can_step cfg (batch : list (string * string))
    st0 st i t :
  start_cycle cfg batch = Return st0 ->
  rtc task_step st0 st ->
  (0 < concurrency cfg)%Z ->
  tasks st !! i = Some t -> (forall result, t <> Done result) ->
  exists st', task_step st st'.
Proof.
  intros Hstart Hreach Hcap Hi Ht.
  destruct (reachable_accounted _ _ _ _ Hstart Hreach) as [Hpos Hsum].
  destruct (Nat.eq_dec (in_flight st) 0%nat) as [Hnone|Hsome].
  - destruct t as [| |result].
    + eexists. apply (step_acquire st i Hi). lia.
    + exfalso. unfold in_flight in Hnone.
      pose proof (count_if_insert is_in_flight _ _ _ Waiting Hi) as Hc.
      simpl in Hc. lia.
    + now contradiction (Ht result).
  - destruct (count_if_lookup is_in_flight (tasks st)) as (j & x & Hj & Hx).
    { unfold in_flight in Hsome. lia. }
    destruct x; try discriminate.
    eexists. apply (step_release st j (Raise example_exn) Hj).
Qed.

(** X21. With a cap of 0 no probe of a non-empty batch ever starts: no task
    can take the semaphore, so the cycle never completes. *)
Theorem zero_cap_never_starts cfg (batch : list (string * string)) st0 st :
  concurrency cfg = 0 ->
  start_cycle cfg batch = Return st0 ->
  rtc task_step st0 st ->
  st = st0 /\ Forall (fun t => t = Waiting) (tasks st) /\
  length (tasks st) = length batch.
Proof.
  intros Hcap Hstart Hreach.
  assert (H0 : Forall (fun t => t = Waiting) (tasks st0) /\
               length (tasks st0) = length batch /\ sem_value st0 = 0).
  { revert Hstart. unfold start_cycle, Semaphore. rewrite Hcap. simpl.
    intros [= <-]. cbn [tasks sem_value].
    split; [|split; [apply length_map | reflexivity]].
    apply List.Forall_forall. intros t Ht.
    now apply in_map_iff in Ht as (? & <- & _). }
  destruct H0 as (Hall & Hlen & Hsem).
  destruct Hreach as [st|st st1 st2 Hstep _].
  - auto.
  - exfalso. destruct Hstep as [st i Hi Hfree | st i result Hi].
    + lia.
    + rewrite List.Forall_forall in Hall.
      assert (Hin : In InFlight (tasks st)).
      { apply list_elem_of_In. eapply list_elem_of_lookup_2. exact Hi. }
      now specialize (Hall _ Hin).
Qed.

(** X22. Along a cycle no task is added or lost, the semaphore value stays
    between 0 and the cap, and once every task has left its [async with]
    block the semaphore is back at the cap. *)
Theorem cycle_accounting cfg (batch : list (string * string)) st0 st :
  start_cycle cfg batch = Return st0 ->
  rtc task_step st0 st ->
  length (tasks st) = length batch /\
  (0 <= sem_value st <= concurrency cfg)%Z /\
  ((forall t, In t (tasks st) -> exists result, t = Done result) ->
   sem_value st = concurrency cfg).
Proof.
  intros Hstart Hreach.
  destruct (reachable_accounted _ _ _ _ Hstart Hreach) as [Hpos Hsum].
  split; [|split; [lia|]].
  - assert (H0 : length (tasks st0) = length batch).
    { revert Hstart. unfold start_cycle, Semaphore.
      destruct (concurrency cfg <? 0)%Z; [discriminate|].
      intros [= <-]. simpl. apply length_map. }
    clear Hstart Hpos Hsum.
    induction Hreach as [st|st st1 st2 Hstep _ IH]; [exact H0|].
    apply IH. now rewrite (task_step_length _ _ Hstep).
  - intros Hdone. unfold in_flight in Hsum.
    rewrite count_if_zero in Hsum; [lia|].
    intros t Ht. now destruct (Hdone t Ht) as [result ->].
Qed.

(** ** Validation of the configuration *)

Lemma check_required_spec {V} (required : list string)
    (config : list (string * V)) :
  (check_required required config = Return tt <->
   forall key, In key required -> dict_get key config <> None) /\
  (forall e, check_required required config = Raise e ->
     exists before key after,
       required = before ++ key :: after /\
       e = ValueError (missing_field key) /\
       dict_get key config = None /\
       forall k, In k before -> dict_get k config <> None).
Proof.
  induction required as [|key rest [IHok IHerr]]; simpl.
  - split; [split; [intros _ ? [] | reflexivity] | discriminate].
  - destruct (dict_get key config) as [v|] eqn:Hk.
    + split.
      * rewrite IHok. split.
        -- intros H k [<-|Hin]; [congruence | now apply H].
        -- intros H k Hin. apply H. now right.
      * intros e He. destruct (IHerr e He) as (bef & k & aft & -> & ? & ? & Hb).
        exists (key :: bef), k, aft. repeat split; auto.
        intros k' [<-|Hin]; [congruence | now apply Hb].
    + split.
      * split; [discriminate|]. intros H. exfalso. apply (H key); auto.
      * intros e [= <-]. exists [], key, rest.
        repeat split; auto; intros k [].
Qed.

(** X23. [_validate_config] accepts a configuration exactly when it has the
    five top-level keys; otherwise its [ValueError] names the first of the
    required keys, in their listed order, that is missing.  Nothing below
    the top level is looked at. *)
Theorem validate_config_spec {V} (config : list (string * V)) :
  (validate_config config = Return tt <->
   forall key, In key required_keys -> dict_get key config <> None) /\
  (forall e, validate_config config = Raise e ->
     exists before key after,
       required_keys = before ++ key :: after /\
       e = ValueError (missing_field key) /\
       dict_get key config = None /\
       forall k, In k before -> dict_get k config <> None).
Proof. apply check_required_spec. Qed.

(** ** The command line *)

Lemma invalid_engines_nil cfg requested :
  invalid_engines cfg requested = [] <->
  forall e, In e requested -> is_Some (search_engines cfg !! e).
Proof.
  unfold invalid_engines. induction requested as [|e requested IH]; simpl.
  - split; [intros _ ? [] | reflexivity].
  - destruct (search_engines cfg !! e) as [ec|] eqn:He.
    + rewrite bool_decide_eq_false_2 by discriminate. rewrite IH. split.
      * intros H e' [<-|Hin]; [rewrite He; eauto | now apply H].
      * intros H e' Hin. apply H. now right.
    + rewrite bool_decide_eq_true_2 by reflexivity.
      split; [discriminate|]. intros H.
      destruct (H e (or_introl eq_refl)) as [? Hs]. congruence.
Qed.

Lemma apply_duration_engines args cfg :
  search_engines (apply_duration args cfg) = search_engines cfg.
Proof.
  unfold apply_duration. destruct (args_duration args) as [m|]; [|reflexivity].
  now destruct (m =? 0)%Z.
Qed.

(** X24. In its handling of [--engines] and [--duration], [main] leaves
    through [sys.exit(1)] exactly when one of the requested engines is not
    configured; no other exit code is produced there. *)
Theorem configure_exit_iff args cfg code :
  configure args cfg = Exit code <->
  code = 1 /\
  exists requested e,
    args_engines args = Some requested /\ In e requested /\
    search_engines cfg !! e = None.
Proof.
  unfold configure. destruct (args_engines args) as [[|e0 es]|] eqn:Ha.
  - split; [discriminate|]. intros (_ & requested & e & [= <-] & [] & _).
  - destruct (invalid_engines cfg (e0 :: es)) as [|bad others] eqn:Hinv.
    + split; [discriminate|]. intros (_ & requested & e & [= <-] & Hin & He).
      pose proof (proj1 (invalid_engines_nil _ _) Hinv) as Hok.
      destruct (Hok e Hin). congruence.
    + split.
      * intros [= <-]. split; [reflexivity|]. exists (e0 :: es), bad.
        split; [reflexivity|].
        assert (Hin : In bad (invalid_engines cfg (e0 :: es)))
          by (rewrite Hinv; now left).
        apply filter_In in Hin as [Hin Hb]. split; [exact Hin|].
        now apply bool_decide_eq_true in Hb.
      * now intros (-> & _).
  - split; [discriminate|]. intros (_ & requested & e & [=] & _).
Qed.

(** X25. When [main] starts [monitor] after [--engines], the monitored
    engines are exactly the requested ones, each with its configured entry,
    and every requested engine is among them. *)
Theorem configure_keeps_requested args cfg cfg' requested :
  args_engines args = Some requested -> requested <> [] ->
  configure args cfg = Run cfg' ->
  (forall e, In e requested ->
             search_engines cfg' !! e = search_engines cfg !! e /\
             is_Some (search_engines cfg' !! e)) /\
  (forall e, ~ In e requested -> search_engines cfg' !! e = None) /\
  (forall e, is_Some (init_status_window cfg' !! e) <-> In e requested).
Proof.
  intros Ha Hne. unfold configure. rewrite Ha.
  destruct requested as [|e0 es]; [congruence|].
  destruct (invalid_engines cfg (e0 :: es)) eqn:Hinv; [|discriminate].
  intros [= <-].
  pose proof (proj1 (invalid_engines_nil _ _) Hinv) as Hok. clear Hinv.
  assert (Hlook : forall e,
             search_engines
               (apply_duration args
                  (with_search_engines cfg (keep_requested cfg (e0 :: es))))
             !! e =
             if decide (e ∈ e0 :: es) then search_engines cfg !! e else None).
  { intros e. rewrite apply_duration_engines.
    unfold with_search_engines, keep_requested. cbn [search_engines].
    rewrite map_lookup_filter.
    destruct (search_engines cfg !! e) as [ec|] eqn:He; simpl.
    - destruct (decide (e ∈ e0 :: es)) as [Hin|Hin].
      + now rewrite option_guard_True.
      + now rewrite option_guard_False.
    - now destruct (decide (e ∈ e0 :: es)). }
  split; [|split].
  - intros e Hin. rewrite Hlook.
    destruct (decide (e ∈ e0 :: es)) as [_|Hn].
    + split; [reflexivity | now apply Hok].
    + exfalso. apply Hn. now apply list_elem_of_In.
  - intros e Hin. rewrite Hlook.
    destruct (decide (e ∈ e0 :: es)) as [Hy|_]; [|reflexivity].
    exfalso. apply Hin. now apply list_elem_of_In.
  - intros e. unfold init_status_window.
    rewrite lookup_fmap, fmap_is_Some, Hlook.
    destruct (decide (e ∈ e0 :: es)) as [Hy|Hn].
    + apply list_elem_of_In in Hy. split; [auto | intros _; now apply Hok].
    + split; [intros [? ?]; discriminate|].
      intros Hin. exfalso. apply Hn. now apply list_elem_of_In.
Qed.
(** ** The daily log files *)

Lemma length_append (s t : string) :
  String.length (s +:+ t) = (String.length s + String.length t)%nat.
Proof.
  induction s as [|c s IH]; [reflexivity|].
  rewrite append_cons. simpl. now rewrite IH.
Qed.

Lemma append_inj_l (s s' t : string) : s +:+ t = s' +:+ t -> s = s'.
Proof.
  revert s'. induction s as [|c s IH]; intros [|c' s'];
    rewrite ?append_cons, ?append_nil; intros H.
  - reflexivity.
  - apply (f_equal String.length) in H. simpl in H.
    rewrite length_append in H. lia.
  - apply (f_equal String.length) in H. simpl in H.
    rewrite length_append in H. lia.
  - injection H as -> H. f_equal. now apply IH.
Qed.

Lemma logger_name_inj (e e' : string) :
  logger_name e = logger_name e' -> e = e'.
Proof. apply append_inj_l. Qed.

Lemma filter_file_handlers_reset (kept : list Handler) (fh : Handler) :
  is_file_handler fh = true ->
  List.filter is_file_handler
    (List.filter (fun h => negb (is_file_handler h)) kept ++ [fh]) = [fh].
Proof.
  intros Hfh. rewrite List.filter_app. simpl. rewrite Hfh.
  replace (List.filter is_file_handler
             (List.filter (fun h => negb (is_file_handler h)) kept))
    with (@nil Handler); [reflexivity|].
  induction kept as [|h kept IH]; [reflexivity|]. simpl.
  destruct (is_file_handler h) eqn:Hh; simpl; [exact IH|].
  now rewrite Hh.
Qed.

(** X26. [get_engine_logger] keeps one file handler per engine: if every
    cached engine has exactly its cached handler, on the file of its cached
    date, then after a call the same holds, the logger of the engine asked
    for has exactly one file handler, on the file of the call's date, and
    the file handlers of every other engine are unchanged. *)
Theorem get_engine_logger_one_file log_dir engine date_str st :
  logger_consistent log_dir st ->
  let st' := get_engine_logger log_dir engine date_str st in
  logger_consistent log_dir st' /\
  file_handlers engine st' = [FileHandler log_dir engine date_str] /\
  (forall other, other <> engine ->
                 file_handlers other st' = file_handlers other st).
Proof.
  intros Hc st'. subst st'. unfold get_engine_logger.
  destruct (lg_cache st !! engine) as [[date h]|] eqn:Hcache.
  - destruct (String.eqb_spec date date_str) as [->|Hne]; cbn [negb].
    + destruct (Hc engine date_str h Hcache) as [-> Hone]. auto.
    + split; [|split].
      * intros e d h'. cbn [lg_cache]. rewrite lookup_insert.
        case_decide as He.
        -- subst e. intros [= <- <-]. split; [reflexivity|].
           unfold file_handlers. cbn [lg_handlers].
           rewrite lookup_insert_eq. now apply filter_file_handlers_reset.
        -- intros Hl. destruct (Hc e d h' Hl) as [-> Hone].
           split; [reflexivity|]. unfold file_handlers in *.
           cbn [lg_handlers]. rewrite lookup_insert_ne; [exact Hone|].
           intros Hn. apply logger_name_inj in Hn. congruence.
      * unfold file_handlers. cbn [lg_handlers]. rewrite lookup_insert_eq.
        now apply filter_file_handlers_reset.
      * intros other Ho. unfold file_handlers. cbn [lg_handlers].
        rewrite lookup_insert_ne; [reflexivity|].
        intros Hn. apply logger_name_inj in Hn. congruence.
  - split; [|split].
    + intros e d h'. cbn [lg_cache]. rewrite lookup_insert.
      case_decide as He.
      * subst e. intros [= <- <-]. split; [reflexivity|].
        unfold file_handlers. cbn [lg_handlers].
        rewrite lookup_insert_eq. now apply filter_file_handlers_reset.
      * intros Hl. destruct (Hc e d h' Hl) as [-> Hone].
        split; [reflexivity|]. unfold file_handlers in *.
        cbn [lg_handlers]. rewrite lookup_insert_ne; [exact Hone|].
        intros Hn. apply logger_name_inj in Hn. congruence.
    + unfold file_handlers. cbn [lg_handlers]. rewrite lookup_insert_eq.
      now apply filter_file_handlers_reset.
    + intros other Ho. unfold file_handlers. cbn [lg_handlers].
      rewrite lookup_insert_ne; [reflexivity|].
      intros Hn. apply logger_name_inj in Hn. congruence.
Qed.

(** X27. A second call of [get_engine_logger] for the same engine on the
    same day changes nothing: no handler is added or reopened. *)
Theorem get_engine_logger_same_day log_dir engine date_str st :
  get_engine_logger log_dir engine date_str
    (get_engine_logger log_dir engine date_str st) =
  get_engine_logger log_dir engine date_str st.
Proof.
  unfold get_engine_logger at 1.
  assert (Hhit : exists h,
             lg_cache (get_engine_logger log_dir engine date_str st) !! engine
             = Some (date_str, h)).
  { unfold get_engine_logger.
    destruct (lg_cache st !! engine) as [[date h]|] eqn:Hcache.
    - destruct (String.eqb_spec date date_str) as [->|Hne]; cbn [negb].
      + eauto.
      + cbn [lg_cache]. rewrite lookup_insert_eq. eauto.
    - cbn [lg_cache]. rewrite lookup_insert_eq. eauto. }
  destruct Hhit as [h ->]. now rewrite String.eqb_refl.
Qed.

(** ** The two success checks *)

Lemma lower_app (s t : string) : lower (s +:+ t) = lower s +:+ lower t.
Proof.
  induction s as [|c s IH]; [reflexivity|].
  rewrite append_cons. simpl. now rewrite IH, append_cons.
Qed.

Lemma contains_html_lower (ct : string) :
  contains "html" ct = true -> contains "html" (lower ct) = true.
Proof.
  rewrite !contains_infix. intros (pre & post & ->).
  exists (lower pre), (lower post). now rewrite !lower_app.
Qed.

(** X28. The check of [serp_monitor.py] is the stricter one: a response it
    accepts, under a size floor of at least the 2 KB of the older script, is
    accepted by the check of the older script as well. *)
Theorem success_implies_legacy_success cfg r :
  (Legacy.MIN_CONTENT_SIZE_KB <= min_content_size_kb cfg)%Q ->
  response_is_success cfg r = true ->
  Legacy.response_is_success r = true.
Proof.
  unfold response_is_success, Legacy.response_is_success.
  intros Hfloor. rewrite !andb_true_iff, !negb_true_iff, !geb_ge.
  intros [[Hstatus Hhtml] Hsize]. repeat split.
  - exact Hstatus.
  - apply not_true_iff_false. intros Hct.
    apply contains_html_lower in Hct. congruence.
  - eapply Qle_trans; eassumption.
Qed.

(** ** The loop of the older script and the loop of [monitor] *)

Lemma check_alerts_ext cfg engine stats
    (w1 w2 : gmap string EngineWindow) :
  w1 !! engine = w2 !! engine ->
  check_alerts cfg engine stats w1 = check_alerts cfg engine stats w2.
Proof. intros Hw. unfold check_alerts. now rewrite Hw. Qed.

Lemma legacy_loop_as_items cfg results engines
    (status_window : gmap string EngineWindow) :
  threshold_success_rate cfg = LegacyMonitor.THRESHOLD_SUCCESS_RATE ->
  threshold_timeout_rate cfg = LegacyMonitor.THRESHOLD_TIMEOUT_RATE ->
  LegacyMonitor.analyze_and_alert (group_by_engine results) engines
    status_window =
  update_and_check cfg (legacy_items results engines) status_window.
Proof.
  intros Hsr Htr. revert status_window.
  induction engines as [|engine rest IH]; intros w; [reflexivity|].
  cbn [LegacyMonitor.analyze_and_alert legacy_items flat_map].
  rewrite group_by_engine_get.
  destruct (List.filter (of_engine engine) results) as [|r group] eqn:Hg.
  - cbn [default length Nat.eqb app]. apply IH.
  - change (default [] (Some (r :: group))) with (r :: group).
    cbv zeta. change (length (r :: group) =? 0)%nat with false.
    cbn [app update_and_check].
    destruct (w !! engine) as [s|]; [|reflexivity].
    fold (push_rates s (engine_stats (r :: group))).
    unfold check_alerts. rewrite lookup_insert_eq, Hsr, Htr.
    cbn [cs_results engine_stats].
    destruct (found_3_in_row (r :: group)) as [found|e]; [|reflexivity].
    cbn [mbind outcome_bind]. rewrite IH.
    fold (legacy_items results rest).
    destruct (update_and_check cfg (legacy_items results rest) _)
      as [[w' more]|e]; [|reflexivity].
    cbn [mbind outcome_bind mret outcome_ret]. now rewrite <- !app_assoc.
Qed.

Lemma same_outcome_refl o : same_outcome o o.
Proof. destruct o as [[w a]|e]; simpl; auto. Qed.

Lemma same_outcome_trans o1 o2 o3 :
  same_outcome o1 o2 -> same_outcome o2 o3 -> same_outcome o1 o3.
Proof.
  destruct o1 as [[w1 a1]|e1], o2 as [[w2 a2]|e2], o3 as [[w3 a3]|e3];
    simpl; try tauto.
  intros [-> H12] [-> H23]. split; [reflexivity|]. now rewrite H12.
Qed.

Lemma update_and_check_cons cfg k stats rest
    (w : gmap string EngineWindow) s :
  w !! k = Some s ->
  exists alerts,
    check_alerts cfg k stats (<[k:=push_rates s stats]> w) = Return alerts /\
    update_and_check cfg ((k, stats) :: rest) w =
    match update_and_check cfg rest (<[k:=push_rates s stats]> w) with
    | Return (w', more) => Return (w', alerts ++ more)
    | Raise e => Raise e
    end.
Proof.
  intros Hs.
  destruct (check_alerts_returns cfg k stats (<[k:=push_rates s stats]> w)
              (push_rates s stats)) as (found & _ & Hca);
    [apply lookup_insert_eq|].
  eexists. split; [exact Hca|].
  cbn [update_and_check]. rewrite Hs, Hca. cbn [mbind outcome_bind].
  now destruct (update_and_check cfg rest _) as [[w' more]|e].
Qed.

Lemma update_and_check_missing cfg k stats rest
    (w : gmap string EngineWindow) :
  w !! k = None ->
  update_and_check cfg ((k, stats) :: rest) w = Raise (KeyError k).
Proof. intros Hs. cbn [update_and_check]. now rewrite Hs. Qed.

(** The entries of a cycle can be worked through in any order. *)
Lemma update_and_check_perm cfg items items' :
  Permutation items items' -> NoDup (keys items) ->
  forall w : gmap string EngineWindow,
    same_outcome (update_and_check cfg items w)
                 (update_and_check cfg items' w).
Proof.
  induction 1
    as [|[k stats] l l' Hp IH|[k2 st2] [k1 st1] l|l l' l'' H1 IH1 H2 IH2];
    intros Hnd w.
  - apply same_outcome_refl.
  - change (keys ((k, stats) :: l)) with (k :: keys l) in Hnd.
    apply NoDup_cons in Hnd as [_ Hnd].
    destruct (w !! k) as [s|] eqn:Hs.
    + destruct (update_and_check_cons cfg k stats l w s Hs)
        as (alerts & Hca & ->).
      destruct (update_and_check_cons cfg k stats l' w s Hs)
        as (alerts' & Hca' & ->).
      assert (alerts' = alerts) as -> by congruence.
      specialize (IH Hnd (<[k:=push_rates s stats]> w)).
      destruct (update_and_check cfg l _) as [[w1 a1]|e1],
               (update_and_check cfg l' _) as [[w2 a2]|e2];
        simpl in *; try tauto.
      destruct IH as [-> Ha]. split; [reflexivity|].
      now apply Permutation_app_head.
    + rewrite !update_and_check_missing by exact Hs. exact I.
  - change (keys ((k2, st2) :: (k1, st1) :: l))
      with (k2 :: k1 :: keys l) in Hnd.
    apply NoDup_cons in Hnd as [Hne _].
    assert (Hk : k2 <> k1).
    { intros ->. apply Hne. now left. }
    destruct (w !! k2) as [s2|] eqn:Hs2; destruct (w !! k1) as [s1|] eqn:Hs1.
    + destruct (update_and_check_cons cfg k2 st2 ((k1, st1) :: l) w s2 Hs2)
        as (a2 & Hca2 & ->).
      destruct (update_and_check_cons cfg k1 st1 l
                  (<[k2:=push_rates s2 st2]> w) s1) as (a1 & Hca1 & ->).
      { now rewrite lookup_insert_ne. }
      destruct (update_and_check_cons cfg k1 st1 ((k2, st2) :: l) w s1 Hs1)
        as (a1' & Hca1' & ->).
      destruct (update_and_check_cons cfg k2 st2 l
                  (<[k1:=push_rates s1 st1]> w) s2) as (a2' & Hca2' & ->).
      { rewrite lookup_insert_ne by congruence. exact Hs2. }
      assert (a1' = a1) as ->.
      { rewrite (check_alerts_ext cfg k1 st1 _
                   (<[k1:=push_rates s1 st1]> (<[k2:=push_rates s2 st2]> w)))
          in Hca1' by now rewrite !lookup_insert_eq.
        congruence. }
      assert (a2' = a2) as ->.
      { rewrite (check_alerts_ext cfg k2 st2 _ (<[k2:=push_rates s2 st2]> w))
          in Hca2' by now rewrite !lookup_insert_eq.
        congruence. }
      rewrite (insert_insert_ne w k1 k2) by congruence.
      destruct (update_and_check cfg l _) as [[w' more]|e]; simpl; [|exact I].
      split; [reflexivity|]. apply Permutation_app_swap_app.
    + destruct (update_and_check_cons cfg k2 st2 ((k1, st1) :: l) w s2 Hs2)
        as (a2 & Hca2 & ->).
      rewrite (update_and_check_missing cfg k1 st1 l
                 (<[k2:=push_rates s2 st2]> w))
        by (rewrite lookup_insert_ne by exact Hk; exact Hs1).
      now rewrite (update_and_check_missing cfg k1 st1 _ w Hs1).
    + rewrite (update_and_check_missing cfg k2 st2 _ w Hs2).
      destruct (update_and_check_cons cfg k1 st1 ((k2, st2) :: l) w s1 Hs1)
        as (a1 & Hca1 & ->).
      now rewrite (update_and_check_missing cfg k2 st2 l
                     (<[k1:=push_rates s1 st1]> w))
        by (rewrite lookup_insert_ne by congruence; exact Hs2).
    + rewrite (update_and_check_missing cfg k2 st2 _ w Hs2).
      now rewrite (update_and_check_missing cfg k1 st1 _ w Hs1).
  - eapply same_outcome_trans; [now apply IH1|]. apply IH2.
    unfold keys. rewrite <- H1. exact Hnd.
Qed.

Lemma dict_get_In {V} (k : string) (v : V) (d : list (string * V)) :
  NoDup (keys d) -> In (k, v) d <-> dict_get k d = Some v.
Proof.
  induction d as [|[k0 v0] d IH]; intros Hnd; simpl.
  - split; [tauto | discriminate].
  - change (keys ((k0, v0) :: d)) with (k0 :: keys d) in Hnd.
    apply NoDup_cons in Hnd as [Hk0 Hnd].
    destruct (String.eqb_spec k k0) as [->|Hne].
    + split; [|intros [= ->]; now left].
      intros [[= ->]|Hin]; [reflexivity|]. exfalso. apply Hk0.
      apply list_elem_of_In. apply in_map_iff. now exists (k0, v).
    + rewrite <- (IH Hnd). split; [|now right].
      intros [[= <- _]|Hin]; [congruence | exact Hin].
Qed.

(** Two dicts with the same entries hold them in some order. *)
Lemma dict_permutation {V} (d d' : list (string * V)) :
  NoDup (keys d) -> NoDup (keys d') ->
  (forall k, dict_get k d = dict_get k d') -> Permutation d d'.
Proof.
  intros Hd Hd' Hget. apply NoDup_Permutation.
  - apply (NoDup_fmap_1 fst). exact Hd.
  - apply (NoDup_fmap_1 fst). exact Hd'.
  - intros [k v]. rewrite !list_elem_of_In, !dict_get_In by assumption.
    now rewrite Hget.
Qed.

Lemma dict_get_app {V} (k : string) (d d' : list (string * V)) :
  dict_get k (d ++ d') =
  match dict_get k d with Some v => Some v | None => dict_get k d' end.
Proof.
  induction d as [|[k0 v0] d IH]; simpl; [reflexivity|].
  now destruct (String.eqb k k0).
Qed.

Lemma legacy_items_get results engines engine :
  dict_get engine (legacy_items results engines) =
  if existsb (String.eqb engine) engines
  then match List.filter (of_engine engine) results with
       | [] => None
       | group => Some (engine_stats group)
       end
  else None.
Proof.
  induction engines as [|e rest IH]; [reflexivity|].
  cbn [legacy_items flat_map existsb]. rewrite dict_get_app.
  fold (legacy_items results rest). rewrite IH.
  destruct (String.eqb_spec engine e) as [->|Hne]; cbn [orb].
  - destruct (List.filter (of_engine e) results) as [|r g] eqn:Hg.
    + simpl. now destruct (existsb (String.eqb e) rest).
    + simpl. now rewrite String.eqb_refl.
  - destruct (List.filter (of_engine e) results) as [|r g]; simpl.
    + reflexivity.
    + now destruct (String.eqb_spec engine e).
Qed.

Lemma legacy_items_keys results engines k :
  In k (keys (legacy_items results engines)) -> In k engines.
Proof.
  induction engines as [|e rest IH]; [tauto|].
  cbn [legacy_items flat_map]. rewrite keys_app. intros Hk.
  apply in_app_or in Hk as [Hk|Hk]; [|right; now apply IH].
  destruct (List.filter (of_engine e) results); [destruct Hk|].
  destruct Hk as [<-|[]]. now left.
Qed.

Lemma legacy_items_NoDup results engines :
  NoDup engines -> NoDup (keys (legacy_items results engines)).
Proof.
  induction 1 as [|e rest He Hrest IH]; [constructor|].
  cbn [legacy_items flat_map]. rewrite keys_app.
  fold (legacy_items results rest).
  destruct (List.filter (of_engine e) results); [exact IH|].
  simpl. apply NoDup_cons. split; [|exact IH].
  intros Hk. apply He. apply list_elem_of_In.
  apply (legacy_items_keys results rest). now apply list_elem_of_In.
Qed.

Lemma engine_order_NoDup : NoDup LegacyMonitor.ENGINE_ORDER.
Proof.
  apply NoDup_ListNoDup.
  repeat constructor; simpl; intuition discriminate.
Qed.

(** X30. On the results of the four engines of the older script, and with
    its two rate thresholds, the analysis and alert loop of the older script
    and the one of [serp_monitor.py] do the same: both raise, or both leave
    the same windows and send the same alerts, the older script engine by
    engine in the order of [SEARCH_ENGINES], the new one in the order in
    which the engines first appear among the results. *)
Theorem legacy_cycle_agrees cfg results
    (status_window : gmap string EngineWindow) :
  threshold_success_rate cfg = LegacyMonitor.THRESHOLD_SUCCESS_RATE ->
  threshold_timeout_rate cfg = LegacyMonitor.THRESHOLD_TIMEOUT_RATE ->
  (forall r, In r results -> In (pr_engine r) LegacyMonitor.ENGINE_ORDER) ->
  same_outcome (LegacyMonitor.cycle results status_window)
               (cycle cfg results status_window).
Proof.
  intros Hsr Htr Hknown. unfold LegacyMonitor.cycle, cycle.
  rewrite (legacy_loop_as_items cfg) by assumption.
  apply update_and_check_perm.
  - apply dict_permutation.
    + apply legacy_items_NoDup, engine_order_NoDup.
    + apply analyze_results_NoDup.
    + intros k. rewrite legacy_items_get, analyze_results_get.
      destruct (existsb (String.eqb k) LegacyMonitor.ENGINE_ORDER) eqn:Hk;
        [reflexivity|].
      destruct (List.filter (of_engine k) results) as [|r g] eqn:Hg;
        [reflexivity|]. exfalso.
      assert (Hin : In r (List.filter (of_engine k) results))
        by (rewrite Hg; now left).
      apply filter_In in Hin as [Hin He]. apply String.eqb_eq in He.
      apply not_true_iff_false in Hk. apply Hk. apply existsb_exists.
      exists (pr_engine r). split; [now apply Hknown|].
      rewrite He. apply String.eqb_refl.
  - apply legacy_items_NoDup, engine_order_NoDup.
Qed.

(** ** The further properties at concrete inputs *)

Lemma build_payload_url_witness :
  build_payload example_cfg "x" "a&b=c d" = Return example_payload /\
  exists engine_config domain param quoted,
    search_engines example_cfg !! "x" = Some engine_config /\
    ec_domain engine_config = Some domain /\
    ec_param engine_config = Some param /\
    pl_url example_payload =
      "https://" +:+ domain +:+ "/search?" +:+ param +:+ "="
        +:+ quoted +:+ "&json=1" /\
    (forall c, In c (chars quoted) -> In c (chars url_chars)) /\
    unquote quoted = "a&b=c d".
Proof.
  split; [vm_compute; reflexivity|].
  apply (build_payload_url example_cfg "x" "a&b=c d" example_payload).
  vm_compute; reflexivity.
Defined.


Lemma analysis_entry_results_witness :
  dict_get "x" (analyze_results one_in_five) = Some (engine_stats one_in_five)
  /\
  cs_results (engine_stats one_in_five) =
    List.filter (of_engine "x") one_in_five /\
  cs_total (engine_stats one_in_five) =
    length (cs_results (engine_stats one_in_five)) /\
  (forall r, In r (cs_results (engine_stats one_in_five)) ->
             In r one_in_five /\ pr_engine r = "x").
Proof.
  split; [vm_compute; reflexivity|].
  apply (analysis_entry_results "x" one_in_five (engine_stats one_in_five)).
  vm_compute; reflexivity.
Defined.

Lemma analysis_counts_bounded_witness :
  dict_get "x" (analyze_results one_in_five) = Some (engine_stats one_in_five)
  /\
  (0 < cs_total (engine_stats one_in_five))%nat /\
  (cs_success (engine_stats one_in_five)
   <= cs_total (engine_stats one_in_five))%nat /\
  (cs_timeout (engine_stats one_in_five)
   <= cs_total (engine_stats one_in_five))%nat /\
  (cs_exceptions (engine_stats one_in_five)
   + cs_errors (engine_stats one_in_five)
   <= cs_total (engine_stats one_in_five))%nat.
Proof.
  split; [vm_compute; reflexivity|].
  apply (analysis_counts_bounded "x" one_in_five (engine_stats one_in_five)).
  vm_compute; reflexivity.
Defined.

Lemma failed_batch_statistics_witness :
  [example_failed] <> [] /\
  (forall r, In r [example_failed] -> failed_probe r) /\
  stats_numbers (engine_stats [example_failed]) =
  ((length [example_failed], 0%nat, length [example_failed], 0%nat,
    length [example_failed]),
   (0 # 1, 100 # 1, 0 # 1, 100 # 1)%Q).
Proof.
  assert (Hfail : forall r, In r [example_failed] -> failed_probe r).
  { intros r [<-|[]].
    exists example_cfg, example_exn, example_clock, "x", "Soy Milk".
    vm_compute; reflexivity. }
  split; [discriminate|]. split; [exact Hfail|].
  apply (failed_batch_statistics [example_failed]);
    [discriminate | exact Hfail].
Defined.

Lemma timeout_rate_alert_rule_witness :
  ({[ "x" := low_window ]} : gmap string EngineWindow) !! "x" = Some low_window
  /\
  exists alerts,
    check_alerts example_cfg "x" (engine_stats one_in_five)
      {[ "x" := low_window ]} = Return alerts /\
    (existsb is_timeout_alert alerts = true <->
     length (dq_items (w_timeout_rate low_window)) = 3%nat /\
     (forall x, In x (dq_items (w_timeout_rate low_window)) ->
                (threshold_timeout_rate example_cfg < x)%Q)).
Proof.
  split; [vm_compute; reflexivity|].
  apply (timeout_rate_alert_rule example_cfg "x" (engine_stats one_in_five)
           {[ "x" := low_window ]} low_window).
  vm_compute; reflexivity.
Defined.

Lemma check_alerts_calls_witness :
  ({[ "x" := low_window ]} : gmap string EngineWindow) !! "x" = Some low_window
  /\
  check_alerts example_cfg "x" (engine_stats one_in_five)
    {[ "x" := low_window ]} =
  Return [SuccessRateAlert "x" (95 # 1) [20 # 1; 20 # 1; 20 # 1]%Q] /\
  length
    (List.filter is_success_alert
       [SuccessRateAlert "x" (95 # 1) [20 # 1; 20 # 1; 20 # 1]%Q]) = 1%nat.
Proof.
  split; [vm_compute; reflexivity|]. split; [vm_compute; reflexivity|].
  pose proof (check_alerts_calls example_cfg "x" (engine_stats one_in_five)
                {[ "x" := low_window ]} low_window
                [SuccessRateAlert "x" (95 # 1) [20 # 1; 20 # 1; 20 # 1]%Q])
    as H.
  destruct H as (_ & _ & Hone & _ & _).
  - vm_compute; reflexivity.
  - vm_compute; reflexivity.
  - reflexivity.
Defined.

Lemma no_rate_alert_before_third_cycle_witness :
  (length [engine_stats one_in_five; engine_stats one_in_five] < 3)%nat /\
  ({[ "x" := window_after [engine_stats one_in_five;
                            engine_stats one_in_five] ]}
     : gmap string EngineWindow) !! "x" =
  Some (window_after [engine_stats one_in_five; engine_stats one_in_five]) /\
  exists alerts,
    check_alerts example_cfg "x" (engine_stats one_in_five)
      {[ "x" := window_after [engine_stats one_in_five;
                               engine_stats one_in_five] ]} = Return alerts /\
    existsb is_success_alert alerts = false /\
    existsb is_timeout_alert alerts = false.
Proof.
  split; [simpl; lia|]. split; [vm_compute; reflexivity|].
  apply (no_rate_alert_before_third_cycle example_cfg "x"
           (engine_stats one_in_five)
           [engine_stats one_in_five; engine_stats one_in_five]).
  - simpl; lia.
  - vm_compute; reflexivity.
Defined.

Lemma success_alert_repeats_witness :
  (cs_success_rate (engine_stats one_in_five)
   < threshold_success_rate example_cfg)%Q /\
  exists alerts',
    check_alerts example_cfg "x" (engine_stats one_in_five)
      {[ "x" := window_after
                  ([engine_stats one_in_five; engine_stats one_in_five;
                    engine_stats one_in_five] ++ [engine_stats one_in_five]) ]}
    = Return alerts' /\
    existsb is_success_alert alerts' = true.
Proof.
  split; [vm_compute; reflexivity|].
  apply (success_alert_repeats example_cfg "x" (engine_stats one_in_five)
           (engine_stats one_in_five)
           [engine_stats one_in_five; engine_stats one_in_five;
            engine_stats one_in_five]
           {[ "x" := low_window ]} _
           [SuccessRateAlert "x" (95 # 1) [20 # 1; 20 # 1; 20 # 1]%Q]).
  - vm_compute; reflexivity.
  - vm_compute; reflexivity.
  - reflexivity.
  - vm_compute; reflexivity.
  - vm_compute; reflexivity.
Defined.

Lemma good_cycle_suppresses_alert_witness :
  (threshold_success_rate example_cfg
   <= cs_success_rate (engine_stats five_in_five))%Q /\
  (length [engine_stats one_in_five; engine_stats one_in_five] <= 2)%nat /\
  exists alerts,
    check_alerts example_cfg "x" (engine_stats one_in_five)
      {[ "x" := window_after
                  ([engine_stats one_in_five] ++
                   engine_stats five_in_five ::
                   [engine_stats one_in_five; engine_stats one_in_five]) ]}
    = Return alerts /\
    existsb is_success_alert alerts = false.
Proof.
  split; [vm_compute; discriminate|]. split; [simpl; lia|].
  apply (good_cycle_suppresses_alert example_cfg "x"
           (engine_stats one_in_five) [engine_stats one_in_five]
           (engine_stats five_in_five)
           [engine_stats one_in_five; engine_stats one_in_five]).
  - vm_compute; discriminate.
  - simpl; lia.
  - vm_compute; reflexivity.
Defined.

Lemma burst_rule_order_independent_witness :
  Permutation two_results (rev two_results) /\
  sorted_by_timestamp two_results = sorted_by_timestamp (rev two_results) /\
  found_3_in_row two_results = found_3_in_row (rev two_results).
Proof.
  split; [apply perm_swap|].
  apply (burst_rule_order_independent two_results (rev two_results)).
  - apply perm_swap.
  - intros a b [<-|[<-|[]]] [<-|[<-|[]]] Hq;
      try reflexivity; vm_compute in Hq; discriminate.
Defined.

Lemma two_in_flight_reachable : rtc task_step five_waiting two_in_flight.
Proof.
  eapply rtc_l.
  { apply (step_acquire five_waiting 2); [reflexivity | simpl; lia]. }
  eapply rtc_l.
  { apply (step_acquire
             {| sem_value := 1;
                tasks := [Waiting; Waiting; InFlight; Waiting; Waiting] |}
             0); [reflexivity | simpl; lia]. }
  apply rtc_refl.
Defined.

Lemma unfinished_cycle_can_step_witness :
  start_cycle example_cfg example_batch = Return five_waiting /\
  (0 < concurrency example_cfg)%Z /\
  tasks two_in_flight !! 1%nat = Some Waiting /\
  exists st', task_step two_in_flight st'.
Proof.
  split; [reflexivity|]. split; [simpl; lia|]. split; [reflexivity|].
  apply (unfinished_cycle_can_step example_cfg example_batch five_waiting
           two_in_flight 1 Waiting).
  - reflexivity.
  - exact two_in_flight_reachable.
  - simpl; lia.
  - reflexivity.
  - discriminate.
Defined.

Lemma zero_cap_never_starts_witness :
  concurrency two_engine_cfg = 0 /\
  start_cycle two_engine_cfg example_batch = Return stuck_cycle /\
  stuck_cycle = stuck_cycle /\
  Forall (fun t => t = Waiting) (tasks stuck_cycle) /\
  length (tasks stuck_cycle) = length example_batch.
Proof.
  split; [reflexivity|]. split; [reflexivity|].
  apply (zero_cap_never_starts two_engine_cfg example_batch stuck_cycle
           stuck_cycle).
  - reflexivity.
  - reflexivity.
  - apply rtc_refl.
Defined.

Lemma cycle_accounting_witness :
  start_cycle example_cfg example_batch = Return five_waiting /\
  length (tasks two_in_flight) = length example_batch /\
  (0 <= sem_value two_in_flight <= concurrency example_cfg)%Z /\
  ((forall t, In t (tasks two_in_flight) -> exists result, t = Done result) ->
   sem_value two_in_flight = concurrency example_cfg).
Proof.
  split; [reflexivity|].
  apply (cycle_accounting example_cfg example_batch five_waiting
           two_in_flight).
  - reflexivity.
  - exact two_in_flight_reachable.
Defined.

Lemma configure_keeps_requested_witness :
  args_engines only_x = Some ["x"] /\
  configure only_x two_engine_cfg =
  Run (apply_duration only_x
         (with_search_engines two_engine_cfg
            (keep_requested two_engine_cfg ["x"]))) /\
  (forall e, is_Some
               (init_status_window
                  (apply_duration only_x
                     (with_search_engines two_engine_cfg
                        (keep_requested two_engine_cfg ["x"]))) !! e)
             <-> In e ["x"]).
Proof.
  split; [reflexivity|]. split; [vm_compute; reflexivity|].
  apply (configure_keeps_requested only_x two_engine_cfg _ ["x"]).
  - reflexivity.
  - discriminate.
  - vm_compute; reflexivity.
Defined.

Lemma get_engine_logger_one_file_witness :
  logger_consistent "logs" no_loggers /\
  file_handlers "x" (get_engine_logger "logs" "x" "20261103" no_loggers) =
  [FileHandler "logs" "x" "20261103"].
Proof.
  assert (H0 : logger_consistent "logs" no_loggers).
  { intros engine date h. simpl. rewrite lookup_empty. discriminate. }
  split; [exact H0|].
  apply (get_engine_logger_one_file "logs" "x" "20261103" no_loggers H0).
Defined.

Lemma success_implies_legacy_success_witness :
  (Legacy.MIN_CONTENT_SIZE_KB <= min_content_size_kb example_cfg)%Q /\
  response_is_success example_cfg example_response = true /\
  Legacy.response_is_success example_response = true.
Proof.
  split; [vm_compute; discriminate|]. split; [vm_compute; reflexivity|].
  apply (success_implies_legacy_success example_cfg example_response).
  - vm_compute; discriminate.
  - vm_compute; reflexivity.
Defined.

Lemma cycle_lookup_witness :
  cycle example_cfg one_in_five (init_status_window example_cfg) =
  Return ({[ "x" := push_rates new_window (engine_stats one_in_five) ]}, [])
  /\
  ({[ "x" := push_rates new_window (engine_stats one_in_five) ]}
     : gmap string EngineWindow) !! "x" =
  match List.filter (of_engine "x") one_in_five with
  | [] => init_status_window example_cfg !! "x"
  | group =>
      (fun s => push_rates s (engine_stats group))
        <$> init_status_window example_cfg !! "x"
  end.
Proof.
  split; [vm_compute; reflexivity|].
  apply (cycle_lookup example_cfg one_in_five
           (init_status_window example_cfg) _ [] "x").
  vm_compute; reflexivity.
Defined.

Lemma legacy_cycle_agrees_witness :
  threshold_success_rate example_cfg = LegacyMonitor.THRESHOLD_SUCCESS_RATE /\
  threshold_timeout_rate example_cfg = LegacyMonitor.THRESHOLD_TIMEOUT_RATE /\
  (forall r, In r legacy_batch ->
             In (pr_engine r) LegacyMonitor.ENGINE_ORDER) /\
  same_outcome
    (LegacyMonitor.cycle legacy_batch
       {[ "google" := new_window; "bing" := new_window ]})
    (cycle example_cfg legacy_batch
       {[ "google" := new_window; "bing" := new_window ]}).
Proof.
  assert (Hknown : forall r, In r legacy_batch ->
                             In (pr_engine r) LegacyMonitor.ENGINE_ORDER).
  { intros r [<-|[<-|[]]]; simpl; tauto. }
  split; [reflexivity|]. split; [reflexivity|]. split; [exact Hknown|].
  apply (legacy_cycle_agrees example_cfg legacy_batch
           {[ "google" := new_window; "bing" := new_window ]});
    [reflexivity | reflexivity | exact Hknown].
Defined.
